(** * Gesture classification and text assembly of the two-way translator

    A shallow embedding of the recognition core of
    [src/two_way_translator.py] (class [TwoWayTranslatorApp]): the
    geometric rules of [predict] that turn the classifier's group index
    and the 21 hand landmarks into a symbol, the commit block that moves a
    symbol held in [ten_prev_char] into [self.str], the suggestion refresh,
    and [clear_text].

    Python values are modelled as the code has them: integers are [Z],
    [str] is [string] (characters restricted to code points below 256),
    the dynamically typed [ch1] is a tagged value [pyval], lists are
    [list] with Python's [IndexError] written out, and the exceptions that
    [video_loop] swallows leave the fields assigned so far in place. *)

From Stdlib Require Import ZArith List String Ascii Bool Lia Reals Lra.
From Stdlib Require DecimalString.
From stdpp Require Import base list.

Import ListNotations.
Local Open Scope string_scope.
Local Open Scope Z_scope.

(** ** Python strings *)

(** [str.isspace] on one character, for code points below 256:
    TAB..CR, FS..US, SPACE, NEL and NBSP. *)
Definition is_space (c : ascii) : bool :=
  let n := Z.of_nat (nat_of_ascii c) in
  ((9 <=? n) && (n <=? 13)) || ((28 <=? n) && (n <=? 32))
  || (n =? 133) || (n =? 160).

(** [s.lstrip()] *)
Fixpoint lstrip (s : string) : string :=
  match s with
  | EmptyString => EmptyString
  | String c s' => if is_space c then lstrip s' else s
  end.

(** [s.rstrip()] *)
Fixpoint rstrip (s : string) : string :=
  match s with
  | EmptyString => EmptyString
  | String c s' =>
      match rstrip s' with
      | EmptyString => if is_space c then EmptyString else String c EmptyString
      | r => String c r
      end
  end.

(** [s.strip()] *)
Definition strip (s : string) : string := rstrip (lstrip s).

(** [len(s)] *)
Definition len (s : string) : Z := Z.of_nat (String.length s).

(** [s[:-1]]: everything but the last character; the empty string is
    mapped to itself (a slice never raises). *)
Fixpoint drop_last (s : string) : string :=
  match s with
  | EmptyString => EmptyString
  | String c EmptyString => EmptyString
  | String c s' => String c (drop_last s')
  end.

(** [s.rfind(c)] for a one-character needle, scanning from index [i];
    [acc] is the last hit so far. *)
Fixpoint rfind_from (c : ascii) (i : Z) (acc : Z) (s : string) : Z :=
  match s with
  | EmptyString => acc
  | String d s' => rfind_from c (i + 1) (if Ascii.eqb d c then i else acc) s'
  end.

Definition rfind (s : string) (c : ascii) : Z := rfind_from c 0 (-1) s.

(** [s[i:]] for [0 <= i]. *)
Fixpoint slice_from (i : nat) (s : string) : string :=
  match i, s with
  | O, _ => s
  | S _, EmptyString => EmptyString
  | S i', String _ s' => slice_from i' s'
  end.

(** ** Dynamically typed symbols *)

(** The value of [ch1]: the classifier's group index until a rule
    replaces it by a letter, [" "] or ["next"]. *)
Inductive pyval : Type :=
| PInt (n : Z)
| PStr (s : string).

(** Python's [==] between two such values: an [int] never equals a
    [str]. *)
Definition pyval_eqb (u v : pyval) : bool :=
  match u, v with
  | PInt m, PInt n => m =? n
  | PStr s, PStr t => String.eqb s t
  | _, _ => false
  end.

(** ** Landmarks and the geometric rules *)

(** One entry of [lmList]; only the first two coordinates are read. *)
Definition point : Type := Z * Z.

(** [self.pts[i]]; every caller is behind the guard [len(self.pts) >= 21]. *)
Definition pt (pts : list point) (i : nat) : point := nth i pts (0, 0).
Definition px (pts : list point) (i : nat) : Z := fst (pt pts i).
Definition py (pts : list point) (i : nat) : Z := snd (pt pts i).

(** The radicand of [distance]. *)
Definition dist_sq (x y : point) : Z :=
  (fst x - fst y) ^ 2 + (snd x - snd y) ^ 2.

(** [distance(x, y)], [math.sqrt] read as the real square root. *)
Definition distance (x y : point) : R := sqrt (IZR (dist_sq x y)).

(** [distance(x, y) > t] for an integer threshold [0 <= t], decided on
    the integers.  The radicand is a Python [int]; for landmark
    coordinates, which are pixel positions, it is far within the range a
    double holds, and a correctly rounded square root is monotone and
    exact on the perfect squares [42 * 42] and [72 * 72], so the float
    comparison with [t] agrees with comparing the radicand with [t * t].
    Lemma [distance_gt_spec] relates the test to [distance]. *)
Definition distance_gt (x y : point) (t : Z) : bool := t * t <? dist_sq x y.

(** The class-specific rules, lines 532-556. *)
Definition classify (ch1 : Z) (pts : list point) : pyval :=
  if ch1 =? 0 then
    let c := "S" in
    let c := if px pts 4 <? px pts 6 then "A" else c in
    let c := if py pts 4 >? py pts 8 then "E" else c in
    PStr c
  else if ch1 =? 2 then
    PStr (if distance_gt (pt pts 12) (pt pts 4) 42 then "C" else "O")
  else if ch1 =? 3 then
    PStr (if distance_gt (pt pts 8) (pt pts 12) 72 then "G" else "H")
  else if ch1 =? 4 then PStr "L"
  else if ch1 =? 5 then PStr "P"
  else if ch1 =? 6 then PStr "X"
  else if ch1 =? 7 then
    PStr (if distance_gt (pt pts 8) (pt pts 4) 42 then "Y" else "J")
  else if ch1 =? 1 then
    if (py pts 6 >? py pts 8) && (py pts 10 >? py pts 12) then PStr "B"
    else if (py pts 6 >? py pts 8) && (py pts 10 <? py pts 12) then PStr "D"
    else PStr "F"
  else PInt ch1.

(** The condition of the first special gesture, lines 559-560. *)
Definition space_gesture (pts : list point) : bool :=
  (py pts 6 >? py pts 8) && (py pts 10 <? py pts 12)
  && (py pts 14 <? py pts 16) && (py pts 18 >? py pts 20).

(** The condition of the second special gesture, lines 563-564. *)
Definition next_gesture (pts : list point) : bool :=
  (px pts 4 <? px pts 5) && (py pts 6 >? py pts 8)
  && (py pts 10 >? py pts 12) && (py pts 14 >? py pts 16).

(** Lines 532-565: the class rule, then the two overrides in order. *)
Definition resolve (ch1 : Z) (pts : list point) : pyval :=
  let c := classify ch1 pts in
  let c := if space_gesture pts then PStr " " else c in
  let c := if next_gesture pts then PStr "next" else c in
  c.

(** The resolved symbol of a frame, behind the guard of line 519 on the
    number of landmarks: with fewer than 21 points nothing is resolved. *)
Definition disambiguate (ch1 : Z) (pts : list point) : option pyval :=
  if Z.of_nat (length pts) <? 21 then None else Some (resolve ch1 pts).

(** ** The recognition state of [TwoWayTranslatorApp] *)

(** The fields that [__init__] sets under "ASL recognition state",
    together with [model], which records whether [self.model] has been
    loaded ([true]) or is still [None] ([false]). *)
Record App : Type := mkApp {
  model : bool;
  str : string;
  word : string;
  current_symbol : string;
  prev_char : pyval;
  count : Z;
  ten_prev_char : list pyval;
  ccc : Z;
  pts : list point;
  word1 : string;
  word2 : string;
  word3 : string;
  word4 : string
}.

(** The state after [__init__], lines 138 and 155-167. *)
Definition init : App :=
  {| model := false;
     str := " ";
     word := " ";
     current_symbol := "";
     prev_char := PStr "";
     count := -1;
     ten_prev_char := repeat (PStr " ") 10;
     ccc := 0;
     pts := [];
     word1 := " "; word2 := " "; word3 := " "; word4 := " " |}.

(** [start_camera] after a successful [load_model], line 402. *)
Definition load_model (a : App) : App :=
  {| model := true;
     str := str a; word := word a; current_symbol := current_symbol a;
     prev_char := prev_char a; count := count a;
     ten_prev_char := ten_prev_char a; ccc := ccc a; pts := pts a;
     word1 := word1 a; word2 := word2 a; word3 := word3 a; word4 := word4 a |}.

(** [self.pts = handmap2['lmList']], line 455, with the [self.ccc += 1]
    of line 450 that precedes it. *)
Definition store_landmarks (lm : list point) (a : App) : App :=
  {| model := model a;
     str := str a; word := word a; current_symbol := current_symbol a;
     prev_char := prev_char a; count := count a;
     ten_prev_char := ten_prev_char a; ccc := ccc a + 1; pts := lm;
     word1 := word1 a; word2 := word2 a; word3 := word3 a; word4 := word4 a |}.

(** [self.str = s] *)
Definition set_str (s : string) (a : App) : App :=
  {| model := model a;
     str := s; word := word a; current_symbol := current_symbol a;
     prev_char := prev_char a; count := count a;
     ten_prev_char := ten_prev_char a; ccc := ccc a; pts := pts a;
     word1 := word1 a; word2 := word2 a; word3 := word3 a; word4 := word4 a |}.

(** Lines 575-577: [prev_char], [current_symbol] and [count]. *)
Definition record_symbol (ch1 : pyval) (a : App) : App :=
  {| model := model a;
     str := str a; word := word a;
     current_symbol := match ch1 with PStr s => s | PInt _ => "" end;
     prev_char := ch1; count := count a + 1;
     ten_prev_char := ten_prev_char a; ccc := ccc a; pts := pts a;
     word1 := word1 a; word2 := word2 a; word3 := word3 a; word4 := word4 a |}.

(** [self.ten_prev_char = l] *)
Definition set_history (l : list pyval) (a : App) : App :=
  {| model := model a;
     str := str a; word := word a; current_symbol := current_symbol a;
     prev_char := prev_char a; count := count a;
     ten_prev_char := l; ccc := ccc a; pts := pts a;
     word1 := word1 a; word2 := word2 a; word3 := word3 a; word4 := word4 a |}.

(** [self.word = w] *)
Definition set_word (w : string) (a : App) : App :=
  {| model := model a;
     str := str a; word := w; current_symbol := current_symbol a;
     prev_char := prev_char a; count := count a;
     ten_prev_char := ten_prev_char a; ccc := ccc a; pts := pts a;
     word1 := word1 a; word2 := word2 a; word3 := word3 a; word4 := word4 a |}.

(** The four assignments to [word1] .. [word4]. *)
Definition set_suggestions (w1 w2 w3 w4 : string) (a : App) : App :=
  {| model := model a;
     str := str a; word := word a; current_symbol := current_symbol a;
     prev_char := prev_char a; count := count a;
     ten_prev_char := ten_prev_char a; ccc := ccc a; pts := pts a;
     word1 := w1; word2 := w2; word3 := w3; word4 := w4 |}.

(** ** The commit block *)

(** Exceptions that [predict] can raise on the modelled state. *)
Inductive exn : Type := IndexError | TypeError.

(** What one call did: it ran to its end, or it raised and left the
    state as it was at that point ([video_loop] catches the exception and
    goes on with the next frame). *)
Inductive outcome : Type :=
| Done (a : App)
| Raised (e : exn) (a : App).

Definition final (o : outcome) : App :=
  match o with Done a => a | Raised _ a => a end.

(** The assignment to [self.str] that the commit block performs. *)
Inductive commit : Type :=
| NoCommit
| DeleteLast
| AppendChar (s : string).

Definition apply_commit (c : commit) (s : string) : string :=
  match c with
  | NoCommit => s
  | DeleteLast => drop_last s
  | AppendChar t => s ++ t
  end.

(** [l[i]] for [0 <= i]: [None] stands for [IndexError]. *)
Definition getitem (l : list pyval) (i : Z) : option pyval :=
  l !! Z.to_nat i.

(** [l[i] = v] for [0 <= i]: [None] stands for [IndexError]. *)
Definition setitem (l : list pyval) (i : Z) (v : pyval) : option (list pyval) :=
  if i <? Z.of_nat (length l) then Some (<[Z.to_nat i := v]> l) else None.

(** The slot read by the commit block, [(self.count - 2) % 10]. *)
Definition lookback_slot (a : App) : Z := (count a - 2) mod 10.

(** Lines 568-573: which assignment to [self.str] is chosen. *)
Definition handle_char (a : App) (ch1 : pyval) : exn + commit :=
  if pyval_eqb ch1 (PStr "next") && negb (pyval_eqb (prev_char a) (PStr "next"))
  then
    match getitem (ten_prev_char a) (lookback_slot a) with
    | None => inl IndexError
    | Some h =>
        if negb (pyval_eqb h (PStr "next")) then
          if pyval_eqb h (PStr "Backspace") then inr DeleteLast
          else
            match h with
            | PStr s => inr (AppendChar s)
            | PInt _ => inl TypeError
            end
        else inr NoCommit
    end
  else inr NoCommit.

(** [suggestions[k-1] if len(suggestions) >= k else " "] *)
Definition slot (suggestions : list string) (k : nat) : string :=
  if Z.of_nat k <=? Z.of_nat (length suggestions)
  then nth (k - 1) suggestions " " else " ".

Section Engine.

(** The dictionary collaborator, [ddd.suggest]. *)
Variable suggest : string -> list string.

(** Lines 581-590: the suggestion refresh. *)
Definition update_suggestions (a : App) : App :=
  if negb (len (strip (str a)) =? 0) then
    let st := rfind (str a) " " in
    let w := slice_from (Z.to_nat (st + 1)) (str a) in
    let a := set_word w a in
    if negb (len (strip w) =? 0) then
      let suggestions := suggest w in
      set_suggestions (slot suggestions 1) (slot suggestions 2)
                      (slot suggestions 3) (slot suggestions 4) a
    else a
  else a.

(** Lines 568-590 of [predict], for the resolved symbol [ch1]. *)
Definition commit_step (a : App) (ch1 : pyval) : outcome :=
  match handle_char a ch1 with
  | inl e => Raised e a
  | inr c =>
      let a := set_str (apply_commit c (str a)) a in
      let a := record_symbol ch1 a in
      match setitem (ten_prev_char a) (count a mod 10) ch1 with
      | None => Raised IndexError a
      | Some l => Done (update_suggestions (set_history l a))
      end
  end.

(** [predict], with the classifier's [argmax] given as [ch]. *)
Definition predict (a : App) (ch : Z) : outcome :=
  if negb (model a) || (Z.of_nat (length (pts a)) <? 21) then Done a
  else commit_step a (resolve ch (pts a)).

(** A run of resolved symbols through the commit block, one call per
    frame. *)
Definition feed (a : App) (syms : list pyval) : App :=
  fold_left (fun a ch1 => final (commit_step a ch1)) syms a.

(** One frame of [video_loop] with a detected hand: the landmarks are
    stored and [predict] is called. *)
Definition frame (a : App) (f : list point * Z) : App :=
  final (predict (store_landmarks (fst f) a) (snd f)).

Definition run (a : App) (fs : list (list point * Z)) : App :=
  fold_left frame fs a.

End Engine.

(** [clear_text], lines 607-608; the two label updates act on widgets
    only. *)
Definition clear_text (a : App) : App :=
  set_suggestions " " " " " " " " (set_str " " a).

(** ** The symbols named by the specification *)

Definition Letter (c : ascii) : pyval := PStr (String c EmptyString).
Definition Space : pyval := PStr " ".
Definition Backspace : pyval := PStr "Backspace".
Definition Next : pyval := PStr "next".

(** ** Derived notions *)

(** Every character is white space: what [len(s.strip()) == 0] tests. *)
Fixpoint all_space (s : string) : bool :=
  match s with
  | EmptyString => true
  | String c s' => is_space c && all_space s'
  end.

(** Lines 582-583: the part of the sentence after its last blank. *)
Definition active_word (s : string) : string :=
  slice_from (Z.to_nat (rfind s " " + 1)) s.

(** Whether the commit block assigns to [self.str]. *)
Definition commits (a : App) (ch1 : pyval) : bool :=
  match handle_char a ch1 with
  | inr DeleteLast | inr (AppendChar _) => true
  | _ => false
  end.

(** The strings that the rules assign to [ch1]. *)
Definition symbols : list string :=
  ["A"; "B"; "C"; "D"; "E"; "F"; "G"; "H"; "J"; "L"; "O"; "P"; "S"; "X"; "Y";
   " "; "next"].

(** The states of a session: the application starts, loads its model,
    processes frames with a hand (any landmark list, any classifier
    output) and may have its text cleared. *)
Inductive reachable (suggest : string -> list string) : App -> Prop :=
| reach_init : reachable suggest init
| reach_load (a : App) :
    reachable suggest a -> reachable suggest (load_model a)
| reach_frame (a : App) (f : list point * Z) :
    reachable suggest a -> reachable suggest (frame suggest a f)
| reach_clear (a : App) :
    reachable suggest a -> reachable suggest (clear_text a).

(** No slot of the history holds "Backspace". *)
Definition no_backspace (a : App) : Prop :=
  Forall (fun v => v <> Backspace) (ten_prev_char a).

(** ** The refresh in the specification's words *)

(** [str.lower] on one character, for code points below 256. *)
Definition lower_char (c : ascii) : ascii :=
  let n := Z.of_nat (nat_of_ascii c) in
  if ((65 <=? n) && (n <=? 90))
     || ((192 <=? n) && (n <=? 222) && negb (n =? 215))
  then ascii_of_nat (Z.to_nat (n + 32)) else c.

Fixpoint lower (s : string) : string :=
  match s with
  | EmptyString => EmptyString
  | String c s' => String (lower_char c) (lower s')
  end.

(** The refresh as the specification words it: the dictionary is asked
    for the lowercase form of the active word; with an empty active word
    the suggestions are the placeholders. *)
Definition spec_refresh_suggestions (suggest : string -> list string)
           (a : App) : App :=
  let w := active_word (str a) in
  if String.eqb w "" then set_suggestions " " " " " " " " a
  else
    let suggestions := suggest (lower w) in
    set_suggestions (slot suggestions 1) (slot suggestions 2)
                    (slot suggestions 3) (slot suggestions 4) a.

(** ** Sample inputs *)

(** A dictionary that answers with the queried word itself. *)
Definition echo (w : string) : list string := [w].

(** A hand with the middle fingertip far from the thumb tip and no
    special gesture. *)
Definition open_hand : list point :=
  repeat (0, 0) 12 ++ [(43, 0)] ++ repeat (0, 0) 8.

(** A hand showing the confirm gesture: thumb tip left of point 5 and
    points 6, 10, 14 below their fingertips 8, 12, 16 on the image. *)
Definition next_hand : list point :=
  [(0,0); (0,0); (0,0); (0,0); (0,0); (5,0); (0,9); (0,0); (0,1); (0,0);
   (0,9); (0,0); (0,1); (0,0); (0,9); (0,0); (0,1); (0,0); (0,0); (0,0);
   (0,0)].

(** The sentence after "A" has been committed. *)
Definition typed_A : App := set_str " A" init.

(** A state whose look-back slot holds "Backspace" and whose sentence
    is empty. *)
Definition erase_on_empty : App :=
  set_str "" (set_history (repeat Backspace 10) init).

(** A state whose look-back slot holds "Backspace" and whose sentence
    ends with a letter. *)
Definition erase_on_word : App :=
  set_str " AB" (set_history (repeat Backspace 10) init).

(** The state after "A" has been shown for three frames. *)
Definition held_A : App :=
  feed echo init [Letter "A"; Letter "A"; Letter "A"].

(** A hand whose middle fingertip is exactly 42 units from the thumb
    tip. *)
Definition boundary_hand : list point :=
  (repeat (0, 0) 12 ++ [(42, 0)] ++ repeat (0, 0) 8)%list.

(** ** Applying a suggestion and speaking *)

(** [s[:k]] for [0 <= k]. *)
Fixpoint slice_to (k : nat) (s : string) : string :=
  match k, s with
  | O, _ => EmptyString
  | S _, EmptyString => EmptyString
  | S k', String c s' => String c (slice_to k' s')
  end.

(** [l[i]] for any integer [i]: a negative index counts from the end,
    [None] stands for [IndexError]. *)
Definition list_getitem {A : Type} (l : list A) (i : Z) : option A :=
  let n := Z.of_nat (length l) in
  if (0 <=? i) && (i <? n) then nth_error l (Z.to_nat i)
  else if (- n <=? i) && (i <? 0) then nth_error l (Z.to_nat (i + n))
  else None.

(** Truth value of a string: it is not empty. *)
Definition truthy (s : string) : bool := negb (String.eqb s "").

Section Suggestion.

(** [str.upper], a builtin that can change the length of a string and
    leave the code points below 256; the properties hold for any such
    function. *)
Variable upper : string -> string.

(** [apply_suggestion], lines 592-597. *)
Definition apply_suggestion (a : App) (num : Z) : outcome :=
  let words := [word1 a; word2 a; word3 a; word4 a] in
  if num <=? Z.of_nat (length words) then
    match list_getitem words (num - 1) with
    | None => Raised IndexError a
    | Some w =>
        if truthy (strip w) then
          let idx_space := rfind (str a) " " in
          Done (set_str (slice_to (Z.to_nat (idx_space + 1)) (str a) ++ upper w) a)
        else Done a
    end
  else Done a.

End Suggestion.

(** [speak_text], lines 599-603: the text handed to the speech engine,
    if any. *)
Definition speak_text (a : App) : option string :=
  if truthy (strip (str a)) then Some (str a) else None.

(** [str.upper] on a string of ASCII characters. *)
Definition ascii_upper_char (c : ascii) : ascii :=
  let n := Z.of_nat (nat_of_ascii c) in
  if (97 <=? n) && (n <=? 122) then ascii_of_nat (Z.to_nat (n - 32)) else c.

Fixpoint ascii_upper (s : string) : string :=
  match s with
  | EmptyString => EmptyString
  | String c s' => String (ascii_upper_char c) (ascii_upper s')
  end.

(** No character of the string is the blank [" "]. *)
Fixpoint no_blank (s : string) : bool :=
  match s with
  | EmptyString => true
  | String c s' => negb (Ascii.eqb c " ") && no_blank s'
  end.

(** ** Inputs of the further properties *)

(** The landmarks that the rules of [predict] read. *)
Definition read_points : list nat := [4; 5; 6; 8; 10; 12; 14; 16; 18; 20]%nat.

(** A hand with point 6 below point 8 and point 10 below point 12 on the
    image, and nothing else raised. *)
Definition b_hand : list point :=
  [(0,0); (0,0); (0,0); (0,0); (0,0); (0,0); (0,9); (0,0); (0,1); (0,0);
   (0,9); (0,0); (0,1); (0,0); (0,0); (0,0); (0,0); (0,0); (0,0); (0,0);
   (0,0)].

(** The same hand with the wrist moved. *)
Definition b_hand_moved : list point := (7, 7) :: tail b_hand.

(** The state after an unresolved group index has been shown for three
    frames. *)
Definition held_int : App :=
  feed echo init [PInt 9; PInt 9; PInt 9].

(** The value is a [str]. *)
Definition is_str (v : pyval) : bool :=
  match v with PStr _ => true | PInt _ => false end.

(** The history as [__init__] builds it and [predict] keeps it for
    string symbols: ten slots, each holding a string. *)
Definition well_formed (a : App) : Prop :=
  length (ten_prev_char a) = 10%nat
  /\ Forall (fun v => is_str v = true) (ten_prev_char a).

(** The characters that a commit can append. *)
Definition alphabet : string := "ABCDEFGHJLOPSXY ".

(** [c in s] for a character. *)
Fixpoint char_in (c : ascii) (s : string) : bool :=
  match s with
  | EmptyString => false
  | String d s' => Ascii.eqb c d || char_in c s'
  end.

(** Every character of [s] occurs in [alpha]. *)
Fixpoint all_in (alpha : string) (s : string) : bool :=
  match s with
  | EmptyString => true
  | String c s' => char_in c alpha && all_in alpha s'
  end.

(** Line 597: the part of the sentence up to and including its last
    blank, [self.str[:idx_space + 1]]. *)
Definition sentence_prefix (s : string) : string :=
  slice_to (Z.to_nat (rfind s " " + 1)) s.

(** The four suggestions, as [apply_suggestion] lists them. *)
Definition words (a : App) : list string :=
  [word1 a; word2 a; word3 a; word4 a].

(** The state after "L" has been held and confirmed. *)
Definition typed_L : App :=
  frame echo
    (frame echo
       (frame echo (frame echo (load_model init) (open_hand, 4))
              (open_hand, 4))
       (open_hand, 4))
    (next_hand, 4).

(** A sentence whose last word is finished, with the answers for that
    word still on the buttons. *)
Definition word_done : App :=
  set_suggestions "say" "says" "sat" "sag" (set_str " SAY " init).

(** A sentence with a word in progress and dictionary answers for it. *)
Definition spelling_HEL : App :=
  set_suggestions "hello" "help" "held" " " (set_str " SAY HEL" init).

(** ** Voice to sign: the fingerspelling animation *)

(** [str.isalpha] on one character, for code points below 256. *)
Definition is_alpha (c : ascii) : bool :=
  let n := Z.of_nat (nat_of_ascii c) in
  ((65 <=? n) && (n <=? 90)) || ((97 <=? n) && (n <=? 122))
  || (n =? 170) || (n =? 181) || (n =? 186)
  || ((192 <=? n) && (n <=? 214)) || ((216 <=? n) && (n <=? 246))
  || ((248 <=? n) && (n <=? 255)).

(** [str.isalnum] on one character, for code points below 256: the
    letters, the decimal digits, the superscript digits and the vulgar
    fractions. *)
Definition is_alnum (c : ascii) : bool :=
  let n := Z.of_nat (nat_of_ascii c) in
  is_alpha c || ((48 <=? n) && (n <=? 57))
  || (n =? 178) || (n =? 179) || (n =? 185)
  || ((188 <=? n) && (n <=? 190)).

(** [''.join(c for c in s if f(c))] *)
Fixpoint filter_chars (f : ascii -> bool) (s : string) : string :=
  match s with
  | EmptyString => EmptyString
  | String c s' => if f c then String c (filter_chars f s') else filter_chars f s'
  end.

(** [s.split()]: the maximal runs of characters that are not white
    space; [tok] is the run being read. *)
Fixpoint split_from (tok : string) (s : string) : list string :=
  match s with
  | EmptyString => if truthy tok then [tok] else []
  | String c s' =>
      if is_space c
      then if truthy tok then tok :: split_from "" s' else split_from "" s'
      else split_from (tok ++ String c "") s'
  end.

Definition split (s : string) : list string := split_from "" s.

(** The fields of the application that the animation uses; an entry of
    [current_images] is represented by its ['char']. *)
Record Player : Type := mkPlayer {
  current_images : list ascii;
  animation_index : Z;
  is_playing : bool;
  progress_maximum : Z;
  progress_value : Z
}.

(** The loops of [display_asl], lines 655-661: the characters for which
    an entry is appended. *)
Definition letters_of (text : string) : list ascii :=
  flat_map
    (fun word =>
       let clean_word := filter_chars is_alnum word in
       list_ascii_of_string (filter_chars is_alpha clean_word))
    (split text).

(** [animate_next], lines 673-693: the new state and the sign shown, if
    any; a sign is shown exactly when the next call is scheduled. *)
Definition animate_next (p : Player) : exn + (Player * option ascii) :=
  if negb (is_playing p)
     || (Z.of_nat (length (current_images p)) <=? animation_index p)
  then
    inr ({| current_images := current_images p;
            animation_index := animation_index p;
            is_playing := false;
            progress_maximum := progress_maximum p;
            progress_value := progress_value p |}, None)
  else
    match list_getitem (current_images p) (animation_index p) with
    | None => inl IndexError
    | Some current =>
        inr ({| current_images := current_images p;
                animation_index := animation_index p + 1;
                is_playing := is_playing p;
                progress_maximum := progress_maximum p;
                progress_value := animation_index p + 1 |}, Some current)
    end.

(** [display_asl], lines 653-671. *)
Definition display_asl (p : Player) (text : string)
  : exn + (Player * option ascii) :=
  let images := letters_of text in
  match images with
  | [] =>
      inr ({| current_images := [];
              animation_index := animation_index p;
              is_playing := is_playing p;
              progress_maximum := progress_maximum p;
              progress_value := progress_value p |}, None)
  | _ :: _ =>
      animate_next
        {| current_images := images;
           animation_index := 0;
           is_playing := true;
           progress_maximum := Z.of_nat (length images);
           progress_value := 0 |}
  end.

(** [stop_animation], lines 695-699. *)
Definition stop_animation (p : Player) : Player :=
  {| current_images := current_images p;
     animation_index := animation_index p;
     is_playing := false;
     progress_maximum := progress_maximum p;
     progress_value := progress_value p |}.

(** The timer: up to [k] further calls of [animate_next], each made
    only if the call before scheduled it; the signs shown, in order. *)
Fixpoint ticks (k : nat) (p : Player) : Player * list ascii :=
  match k with
  | O => (p, [])
  | S k' =>
      match animate_next p with
      | inr (p', Some c) => let (q, cs) := ticks k' p' in (q, c :: cs)
      | inr (p', None) => (p', [])
      | inl _ => (p, [])
      end
  end.

(** The animation fields after [__init__], lines 147-149, with the
    progress bar at the defaults of its widget. *)
Definition idle : Player :=
  {| current_images := []; animation_index := 0; is_playing := false;
     progress_maximum := 100; progress_value := 0 |}.

(** An animation of three signs, one of them shown. *)
Definition playing_cat : Player :=
  {| current_images := ["c"; "a"; "t"]%char; animation_index := 1;
     is_playing := true; progress_maximum := 3; progress_value := 1 |}.

(** What the commit block reads and writes: the model flag, the
    sentence, the previous symbol, the counter and the history. *)
Definition debounce_view (a : App) : bool * string * pyval * Z * list pyval :=
  (model a, str a, prev_char a, count a, ten_prev_char a).

(** The frame carries the 21 landmarks that [predict] asks for. *)
Definition complete (f : list point * Z) : bool :=
  negb (Z.of_nat (length (fst f)) <? 21).

(** ** The image cache of [ASLImageGenerator] *)

(** [f"{n}"] for an integer. *)
Definition decimal (n : Z) : string :=
  DecimalString.NilZero.string_of_int (Z.to_int n).

Section ImageCache.

(** The images and the drawing of lines 75-116, which depends on the
    lowercase letter, the size and the fonts of the machine. *)
Variable image : Type.
Variable draw : string -> Z -> Z -> image.

(** [key in cache] and [cache[key]] on the dictionary [image_cache], kept
    in insertion order. *)
Fixpoint cache_get (key : string) (cache : list (string * image))
  : option image :=
  match cache with
  | [] => None
  | (k, img) :: cache' =>
      if String.eqb key k then Some img else cache_get key cache'
  end.

(** [create_asl_image], lines 68-119: the cache afterwards and the image
    returned. *)
Definition create_asl_image (cache : list (string * image))
           (letter : string) (size : Z * Z)
  : list (string * image) * image :=
  let letter := lower letter in
  let cache_key := letter ++ "_" ++ decimal (fst size) ++ "x"
                   ++ decimal (snd size) in
  match cache_get cache_key cache with
  | Some img => (cache, img)
  | None =>
      let img := draw letter (fst size) (snd size) in
      ((cache ++ [(cache_key, img)])%list, img)
  end.

End ImageCache.

(** Every string held in the history is one of the symbols. *)
Definition history_symbols (a : App) : Prop :=
  Forall (fun v => match v with PStr s => In s symbols | PInt _ => True end)
         (ten_prev_char a).

(** * Properties *)

Ltac split_ifs :=
  repeat match goal with
         | |- context [if ?b then _ else _] => destruct b
         end.

(** ** The distance thresholds *)

Lemma dist_sq_nonneg (x y : point) : 0 <= dist_sq x y.
Proof. unfold dist_sq. nia. Qed.

(** The integer test used by the rules decides the comparison of the
    Euclidean distance with the threshold. *)
Lemma distance_gt_spec (x y : point) (t : Z) :
  0 <= t -> distance_gt x y t = true <-> (IZR t < distance x y)%R.
Proof.
  intros Ht. unfold distance_gt, distance. rewrite Z.ltb_lt.
  assert (Hsq : IZR t = sqrt (IZR (t * t))).
  { rewrite mult_IZR, sqrt_square; [reflexivity | now apply IZR_le]. }
  rewrite Hsq. split; intros H.
  - apply sqrt_lt_1_alt. split; [apply IZR_le; nia | now apply IZR_lt].
  - apply sqrt_lt_0_alt in H. now apply lt_IZR.
Qed.

Lemma distance_le_spec (x y : point) (t : Z) :
  0 <= t -> distance_gt x y t = false <-> (distance x y <= IZR t)%R.
Proof.
  intros Ht. pose proof (distance_gt_spec x y t Ht) as [H1 H2].
  destruct (distance_gt x y t) eqn:E; split; intros H.
  - discriminate.
  - specialize (H1 eq_refl). lra.
  - destruct (Rle_or_lt (distance x y) (IZR t)) as [Hle | Hlt]; [exact Hle |].
    specialize (H2 Hlt). discriminate.
  - reflexivity.
Qed.

(** ** The guard on the number of landmarks *)

Lemma disambiguate_21 (ch1 : Z) (lm : list point) :
  length lm = 21%nat -> disambiguate ch1 lm = Some (resolve ch1 lm).
Proof. intros H. unfold disambiguate. now rewrite H. Qed.

Lemma resolve_plain (ch1 : Z) (lm : list point) :
  space_gesture lm = false -> next_gesture lm = false ->
  resolve ch1 lm = classify ch1 lm.
Proof. intros Hs Hn. unfold resolve. now rewrite Hs, Hn. Qed.

(** C4: with group 2 and neither special gesture present, a 21-point
    frame resolves to "C" exactly when the Euclidean distance between
    points 12 and 4 is strictly greater than 42, and to "O" exactly when
    it is at most 42 (so a distance of exactly 42 gives "O"). *)
Theorem class2_C_iff_distance_gt_42 (lm : list point) :
  length lm = 21%nat ->
  space_gesture lm = false -> next_gesture lm = false ->
  (disambiguate 2 lm = Some (PStr "C")
     <-> (42 < distance (pt lm 12) (pt lm 4))%R)
  /\ (disambiguate 2 lm = Some (PStr "O")
     <-> (distance (pt lm 12) (pt lm 4) <= 42)%R).
Proof.
  intros Hlen Hs Hn.
  rewrite (disambiguate_21 _ _ Hlen), (resolve_plain _ _ Hs Hn).
  unfold classify; simpl (2 =? _).
  pose proof (distance_gt_spec (pt lm 12) (pt lm 4) 42 ltac:(lia)) as Hgt.
  pose proof (distance_le_spec (pt lm 12) (pt lm 4) 42 ltac:(lia)) as Hle.
  destruct (distance_gt (pt lm 12) (pt lm 4) 42); split; split; intros H;
    try reflexivity; try discriminate;
    try (apply Hgt; reflexivity); try (apply Hle; reflexivity).
  - apply Hle in H. discriminate.
  - apply Hgt in H. discriminate.
Qed.

Lemma class2_C_iff_distance_gt_42_witness :
  (disambiguate 2 open_hand = Some (PStr "C")
     <-> (42 < distance (pt open_hand 12) (pt open_hand 4))%R)
  /\ (disambiguate 2 open_hand = Some (PStr "O")
     <-> (distance (pt open_hand 12) (pt open_hand 4) <= 42)%R).
Proof.
  apply (class2_C_iff_distance_gt_42 open_hand); reflexivity.
Defined.

(** C5: with group 0 and neither special gesture present, a 21-point
    frame resolves to "E" whenever point 4 is below point 8 (larger
    ordinate), otherwise to "A" when point 4 is left of point 6, and to
    "S" when neither holds: the E test runs after the A test and
    overrides it. *)
Theorem class0_S_A_E (lm : list point) :
  length lm = 21%nat ->
  space_gesture lm = false -> next_gesture lm = false ->
  disambiguate 0 lm =
    Some (PStr (if py lm 4 >? py lm 8 then "E"
                else if px lm 4 <? px lm 6 then "A" else "S")).
Proof.
  intros Hlen Hs Hn.
  rewrite (disambiguate_21 _ _ Hlen), (resolve_plain _ _ Hs Hn).
  unfold classify; simpl (0 =? _).
  destruct (py lm 4 >? py lm 8), (px lm 4 <? px lm 6); reflexivity.
Qed.

Lemma class0_S_A_E_witness :
  disambiguate 0 open_hand =
    Some (PStr (if py open_hand 4 >? py open_hand 8 then "E"
                else if px open_hand 4 <? px open_hand 6 then "A" else "S")).
Proof.
  apply (class0_S_A_E open_hand); reflexivity.
Defined.

(** C6: no landmark list satisfies the Space condition and the Next
    condition together (they ask opposite orders of points 10 and 12);
    and since the Next test runs last, a 21-point frame that satisfies
    the Next condition resolves to "next" whatever the group and the
    Space test gave. *)
Theorem overrides_exclusive_next_last :
  (forall lm : list point, space_gesture lm && next_gesture lm = false)
  /\ (forall (ch1 : Z) (lm : list point),
        length lm = 21%nat -> next_gesture lm = true ->
        disambiguate ch1 lm = Some Next).
Proof.
  split.
  - intros lm. unfold space_gesture, next_gesture.
    destruct (py lm 10 <? py lm 12) eqn:E1, (py lm 10 >? py lm 12) eqn:E2;
      rewrite ?andb_true_r, ?andb_false_r, ?andb_false_l; try reflexivity.
    apply Z.ltb_lt in E1. apply Z.gtb_lt in E2. lia.
  - intros ch1 lm Hlen Hn.
    rewrite (disambiguate_21 _ _ Hlen). unfold resolve. now rewrite Hn.
Qed.

Lemma overrides_exclusive_next_last_witness :
  space_gesture next_hand && next_gesture next_hand = false
  /\ disambiguate 3 next_hand = Some Next.
Proof.
  split.
  - apply (proj1 overrides_exclusive_next_last next_hand).
  - apply (proj2 overrides_exclusive_next_last 3 next_hand); reflexivity.
Defined.

(** ** Strings *)

Lemma rstrip_empty_iff (s : string) :
  rstrip s = EmptyString <-> all_space s = true.
Proof.
  induction s as [| c s IH]; simpl.
  - tauto.
  - destruct (rstrip s) eqn:E.
    + destruct (is_space c); simpl.
      * split; intros _; [now apply IH | reflexivity].
      * split; intros H; discriminate.
    + split; intros H; [discriminate |].
      apply andb_true_iff in H as [_ H]. apply IH in H. discriminate.
Qed.

Lemma all_space_lstrip (s : string) : all_space (lstrip s) = all_space s.
Proof.
  induction s as [| c s IH]; simpl; [reflexivity |].
  destruct (is_space c) eqn:E; simpl; [exact IH | now rewrite E].
Qed.

Lemma strip_empty_iff (s : string) :
  strip s = EmptyString <-> all_space s = true.
Proof. unfold strip. now rewrite rstrip_empty_iff, all_space_lstrip. Qed.

Lemma all_space_slice_from (i : nat) (s : string) :
  all_space s = true -> all_space (slice_from i s) = true.
Proof.
  revert s. induction i as [| i IH]; intros [| c s] H; simpl; auto.
  simpl in H. apply andb_true_iff in H as [_ H]. now apply IH.
Qed.

Lemma all_space_drop_last (s : string) :
  all_space s = true -> all_space (drop_last s) = true.
Proof.
  induction s as [| c s IH]; simpl; [reflexivity |].
  intros H. apply andb_true_iff in H as [Hc Hs].
  destruct s as [| d s']; [reflexivity |].
  change (is_space c && all_space (drop_last (String d s')) = true).
  now rewrite Hc, IH.
Qed.

Lemma drop_last_snoc (s : string) (c : ascii) :
  drop_last (s ++ String c EmptyString) = s.
Proof.
  induction s as [| d s IH]; simpl; [reflexivity |].
  rewrite IH. destruct s; reflexivity.
Qed.

Lemma length_drop_last (s : string) :
  String.length (drop_last s) = Nat.pred (String.length s).
Proof.
  induction s as [| c s IH]; [reflexivity |].
  destruct s as [| d s']; [reflexivity |].
  change (S (String.length (drop_last (String d s'))) = S (String.length s')).
  now rewrite IH.
Qed.

Lemma length_append (s t : string) :
  String.length (s ++ t) = (String.length s + String.length t)%nat.
Proof. induction s as [| c s IH]; simpl; [reflexivity | now rewrite IH]. Qed.

(** ** The commit block *)

Lemma pyval_eqb_eq (u v : pyval) : pyval_eqb u v = true <-> u = v.
Proof.
  destruct u as [m | s], v as [n | t]; simpl.
  - rewrite Z.eqb_eq. split; congruence.
  - split; discriminate.
  - split; discriminate.
  - rewrite String.eqb_eq. split; congruence.
Qed.

Lemma pyval_eqb_neq (u v : pyval) : pyval_eqb u v = false <-> u <> v.
Proof.
  rewrite <- pyval_eqb_eq. destruct (pyval_eqb u v); split; congruence.
Qed.

Lemma handle_char_other (a : App) (ch1 : pyval) :
  ch1 <> Next -> handle_char a ch1 = inr NoCommit.
Proof.
  intros H. apply pyval_eqb_neq in H. unfold handle_char.
  unfold Next in H. now rewrite H.
Qed.

Lemma handle_char_armed (a : App) (ch1 : pyval) :
  prev_char a = Next -> handle_char a ch1 = inr NoCommit.
Proof.
  intros H. unfold handle_char. rewrite H. simpl.
  now rewrite andb_false_r.
Qed.

Lemma handle_char_commit_edge (a : App) (ch1 : pyval) (c : commit) :
  handle_char a ch1 = inr c -> c <> NoCommit ->
  ch1 = Next /\ prev_char a <> Next.
Proof.
  unfold handle_char. intros H Hc.
  destruct (pyval_eqb ch1 (PStr "next")) eqn:E1; simpl in H;
    [| congruence].
  destruct (pyval_eqb (prev_char a) (PStr "next")) eqn:E2; simpl in H;
    [congruence |].
  split; [now apply pyval_eqb_eq | now apply pyval_eqb_neq].
Qed.

(** The suggestion refresh leaves the sentence and the debounce fields
    alone. *)
Lemma update_suggestions_frame (suggest : string -> list string) (a : App) :
  let b := update_suggestions suggest a in
  str b = str a /\ prev_char b = prev_char a /\ count b = count a
  /\ ten_prev_char b = ten_prev_char a /\ model b = model a.
Proof.
  unfold update_suggestions.
  destruct (negb (len (strip (str a)) =? 0)); simpl; [| tauto].
  match goal with |- context [if ?b then _ else _] => destruct b end;
    simpl; tauto.
Qed.

(** What a call of the commit block that gets past the look-back does
    to the sentence and to the debounce fields. *)
Lemma commit_step_fields (suggest : string -> list string)
      (a : App) (ch1 : pyval) (c : commit) (l : list pyval) :
  handle_char a ch1 = inr c ->
  setitem (ten_prev_char a) ((count a + 1) mod 10) ch1 = Some l ->
  let b := final (commit_step suggest a ch1) in
  str b = apply_commit c (str a) /\ prev_char b = ch1
  /\ count b = count a + 1 /\ ten_prev_char b = l /\ model b = model a.
Proof.
  intros Hc Hl. unfold commit_step. rewrite Hc. simpl. rewrite Hl. simpl.
  pose proof (update_suggestions_frame suggest
    (set_history l (record_symbol ch1 (set_str (apply_commit c (str a)) a))))
    as H.
  simpl in H. exact H.
Qed.

(** A call never shortens or extends the sentence except through the
    chosen commit. *)
Lemma commit_step_str (suggest : string -> list string)
      (a : App) (ch1 : pyval) :
  str (final (commit_step suggest a ch1)) =
    match handle_char a ch1 with
    | inr c => apply_commit c (str a)
    | inl _ => str a
    end.
Proof.
  unfold commit_step. destruct (handle_char a ch1) as [e | c]; [reflexivity |].
  simpl.
  destruct (setitem _ _ _) as [l |]; simpl; [| reflexivity].
  apply update_suggestions_frame.
Qed.

Lemma commit_step_prev_char (suggest : string -> list string)
      (a : App) (ch1 : pyval) (c : commit) :
  handle_char a ch1 = inr c ->
  prev_char (final (commit_step suggest a ch1)) = ch1.
Proof.
  intros Hc. unfold commit_step. rewrite Hc. simpl.
  destruct (setitem _ _ _) as [l |]; simpl; [| reflexivity].
  apply update_suggestions_frame.
Qed.

Lemma commit_step_raised_early (suggest : string -> list string)
      (a : App) (ch1 : pyval) (e : exn) :
  handle_char a ch1 = inl e -> final (commit_step suggest a ch1) = a.
Proof. intros H. unfold commit_step. now rewrite H. Qed.

(** C2: for every state and every resolved symbol other than "next",
    the commit block chooses no assignment to the sentence and the call
    leaves the sentence unchanged: only "next" can commit. *)
Theorem only_next_commits (suggest : string -> list string)
        (a : App) (ch1 : pyval) :
  ch1 <> Next ->
  handle_char a ch1 = inr NoCommit
  /\ commits a ch1 = false
  /\ str (final (commit_step suggest a ch1)) = str a.
Proof.
  intros H. pose proof (handle_char_other a ch1 H) as E.
  split; [exact E |]. split.
  - unfold commits. now rewrite E.
  - rewrite commit_step_str, E. reflexivity.
Qed.

Lemma only_next_commits_witness :
  handle_char init Backspace = inr NoCommit
  /\ commits init Backspace = false
  /\ str (final (commit_step echo init Backspace)) = str init.
Proof.
  apply (only_next_commits echo init Backspace). discriminate.
Defined.

(** After a call with "next" the machine either is armed or raised
    before deciding anything, in which case the state is untouched. *)
Lemma after_next (suggest : string -> list string) (a : App) :
  let b := final (commit_step suggest a Next) in
  prev_char b = Next \/ (b = a /\ exists e, handle_char a Next = inl e).
Proof.
  simpl. destruct (handle_char a Next) as [e | c] eqn:E.
  - right. split; [now apply commit_step_raised_early with e | now exists e].
  - left. now apply commit_step_prev_char with c.
Qed.

Lemma repeat_next_quiet (suggest : string -> list string) (a : App) :
  prev_char a = Next \/ (exists e, handle_char a Next = inl e) ->
  let b := final (commit_step suggest a Next) in
  commits a Next = false /\ str b = str a
  /\ (prev_char b = Next \/ exists e, handle_char b Next = inl e).
Proof.
  intros H. simpl. rewrite commit_step_str. unfold commits.
  destruct H as [H | [e H]].
  - pose proof (handle_char_armed a Next H) as E. rewrite E. simpl.
    repeat split. left. now apply commit_step_prev_char with NoCommit.
  - rewrite H. repeat split. right. exists e.
    now rewrite (commit_step_raised_early suggest a Next e H).
Qed.

(** C3: from every state, of three consecutive "next" symbols only the
    first can commit, and it does so only when the previous symbol was
    not "next"; the second and the third choose no assignment and leave
    the sentence as the first call left it. *)
Theorem next_edge_triggered (suggest : string -> list string) (a : App) :
  let a1 := final (commit_step suggest a Next) in
  let a2 := final (commit_step suggest a1 Next) in
  let a3 := final (commit_step suggest a2 Next) in
  (commits a Next = true -> prev_char a <> Next)
  /\ commits a1 Next = false /\ commits a2 Next = false
  /\ str a2 = str a1 /\ str a3 = str a1.
Proof.
  intros a1 a2 a3.
  assert (H1 : prev_char a1 = Next \/ exists e, handle_char a1 Next = inl e).
  { destruct (after_next suggest a) as [H | [Hb [e He]]]; [now left |].
    right. exists e. fold a1 in Hb. now rewrite Hb. }
  destruct (repeat_next_quiet suggest a1 H1) as (C1 & S1 & H2).
  fold a2 in S1, H2.
  destruct (repeat_next_quiet suggest a2 H2) as (C2 & S2 & _).
  fold a3 in S2.
  repeat split; auto; [| congruence].
  unfold commits. intros Hc.
  destruct (handle_char a Next) as [e | c] eqn:E; [discriminate |].
  apply (handle_char_commit_edge a Next c E).
  destruct c; [discriminate | discriminate | discriminate].
Qed.

Lemma next_edge_triggered_witness :
  commits held_A Next = true /\ prev_char held_A <> Next
  /\ str (feed echo held_A [Next; Next; Next]) = str (feed echo held_A [Next]).
Proof.
  pose proof (next_edge_triggered echo held_A) as H. cbv zeta in H.
  destruct H as (H0 & _ & _ & _ & H3).
  split; [reflexivity |]. split; [apply H0; reflexivity | exact H3].
Defined.

(** ** The look-back from the initial state *)

Lemma commit_step_other_fields (suggest : string -> list string)
      (a : App) (ch1 : pyval) :
  ch1 <> Next -> length (ten_prev_char a) = 10%nat ->
  let b := final (commit_step suggest a ch1) in
  str b = str a /\ prev_char b = ch1 /\ count b = count a + 1
  /\ ten_prev_char b =
       <[Z.to_nat ((count a + 1) mod 10) := ch1]> (ten_prev_char a).
Proof.
  intros Hch Hlen.
  pose proof (commit_step_fields suggest a ch1 NoCommit
    (<[Z.to_nat ((count a + 1) mod 10) := ch1]> (ten_prev_char a))
    (handle_char_other a ch1 Hch)) as H.
  simpl in H. simpl.
  destruct H as (H1 & H2 & H3 & H4 & _); [| tauto].
  unfold setitem. rewrite Hlen.
  pose proof (Z.mod_pos_bound (count a + 1) 10 ltac:(lia)) as Hb.
  destruct (Z.ltb_spec ((count a + 1) mod 10) (Z.of_nat 10)); [reflexivity | lia].
Qed.

(** The state after three symbols other than "next". *)
Lemma three_frames_fields (suggest : string -> list string)
      (s x y : pyval) :
  s <> Next -> x <> Next -> y <> Next ->
  let b := feed suggest init [s; x; y] in
  str b = " " /\ prev_char b = y /\ count b = 2
  /\ ten_prev_char b = s :: x :: y :: repeat (PStr " ") 7.
Proof.
  intros Hs Hx Hy. cbn [feed fold_left].
  destruct (commit_step_other_fields suggest init s Hs eq_refl)
    as (S1 & P1 & C1 & T1).
  set (a1 := final (commit_step suggest init s)) in *.
  assert (L1 : length (ten_prev_char a1) = 10%nat) by now rewrite T1.
  destruct (commit_step_other_fields suggest a1 x Hx L1)
    as (S2 & P2 & C2 & T2).
  set (a2 := final (commit_step suggest a1 x)) in *.
  assert (L2 : length (ten_prev_char a2) = 10%nat).
  { rewrite T2, length_insert. exact L1. }
  destruct (commit_step_other_fields suggest a2 y Hy L2)
    as (S3 & P3 & C3 & T3).
  set (a3 := final (commit_step suggest a2 y)) in *.
  rewrite S3, S2, S1, P3, C3, C2, C1, T3, T2, T1, C2, C1.
  repeat split; reflexivity.
Qed.

(** C1 (as the code has it): from the initial state the slot read on a
    "next" is [(count - 2) mod 10] with [count] not yet incremented for
    the current frame, so the symbol looked at is the one held three
    frames earlier.  After Letter A and two further symbols other than
    "next", a "next" reads slot 0 and appends "A"; after Backspace and
    two further symbols other than "next", it deletes the last character
    instead of appending. *)
Theorem lookback_three_frames (suggest : string -> list string)
        (x y : pyval) :
  x <> Next -> y <> Next ->
  let held := feed suggest init [Letter "A"; x; y] in
  let erased := feed suggest init [Backspace; x; y] in
  lookback_slot held = 0
  /\ handle_char held Next = inr (AppendChar "A")
  /\ str (feed suggest init [Letter "A"; x; y; Next]) = " A"
  /\ lookback_slot erased = 0
  /\ handle_char erased Next = inr DeleteLast
  /\ str (feed suggest init [Backspace; x; y; Next]) = "".
Proof.
  intros Hx Hy held erased.
  destruct (three_frames_fields suggest (Letter "A") x y
              ltac:(discriminate) Hx Hy) as (S1 & P1 & C1 & T1).
  destruct (three_frames_fields suggest Backspace x y
              ltac:(discriminate) Hx Hy) as (S2 & P2 & C2 & T2).
  fold held in S1, P1, C1, T1. fold erased in S2, P2, C2, T2.
  apply pyval_eqb_neq in Hy. unfold Next in Hy.
  assert (H1 : handle_char held Next = inr (AppendChar "A")).
  { unfold handle_char, lookback_slot. rewrite P1, C1, T1, Hy. reflexivity. }
  assert (H2 : handle_char erased Next = inr DeleteLast).
  { unfold handle_char, lookback_slot. rewrite P2, C2, T2, Hy. reflexivity. }
  repeat split.
  - unfold lookback_slot. now rewrite C1.
  - exact H1.
  - change (str (final (commit_step suggest held Next)) = " A").
    now rewrite commit_step_str, H1, S1.
  - unfold lookback_slot. now rewrite C2.
  - exact H2.
  - change (str (final (commit_step suggest erased Next)) = "").
    now rewrite commit_step_str, H2, S2.
Qed.

Lemma lookback_three_frames_witness :
  lookback_slot (feed echo init [Letter "A"; Letter "A"; Letter "A"]) = 0
  /\ handle_char (feed echo init [Letter "A"; Letter "A"; Letter "A"]) Next
     = inr (AppendChar "A")
  /\ str (feed echo init [Letter "A"; Letter "A"; Letter "A"; Next]) = " A"
  /\ lookback_slot (feed echo init [Backspace; Letter "A"; Letter "A"]) = 0
  /\ handle_char (feed echo init [Backspace; Letter "A"; Letter "A"]) Next
     = inr DeleteLast
  /\ str (feed echo init [Backspace; Letter "A"; Letter "A"; Next]) = "".
Proof.
  apply (lookback_three_frames echo (Letter "A") (Letter "A")); discriminate.
Defined.

(** C1 (as written) fails: after Letter A, Letter A the "next" reads slot
    9, which still holds the initial blank, and a blank is appended, not
    "A"; after Letter A, Backspace the "next" reads the same blank and
    appends it instead of deleting. *)
Lemma two_frame_lookback_reads_blank :
  lookback_slot (feed echo init [Letter "A"; Letter "A"]) = 9
  /\ handle_char (feed echo init [Letter "A"; Letter "A"]) Next
     = inr (AppendChar " ")
  /\ str (feed echo init [Letter "A"; Letter "A"; Next]) = "  "
  /\ str (feed echo init [Letter "A"; Letter "A"; Next]) <> " A"
  /\ handle_char (feed echo init [Letter "A"; Backspace]) Next
     = inr (AppendChar " ")
  /\ handle_char (feed echo init [Letter "A"; Backspace]) Next
     <> inr DeleteLast.
Proof.
  repeat split; try reflexivity; vm_compute; discriminate.
Qed.

(** ** Deleting and clearing *)

(** C9: the deletion chosen by the commit block is [s[:-1]], a total
    function: on the empty sentence it returns the empty sentence, on a
    sentence that shows as empty (only blanks) the result still shows as
    empty, on a non-empty sentence it removes the final character.  A
    call of the commit block that deletes runs to its end without
    raising, on every sentence: it leaves an empty sentence empty, and
    it leaves any sentence without its final character. *)
Theorem delete_last_on_empty_is_noop :
  drop_last "" = ""
  /\ (forall s : string, strip s = "" -> strip (drop_last s) = "")
  /\ (forall (s : string) (c : ascii), drop_last (s ++ String c "") = s)
  /\ (forall (suggest : string -> list string) (a : App) (ch1 : pyval),
        handle_char a ch1 = inr DeleteLast -> str a = "" ->
        length (ten_prev_char a) = 10%nat ->
        exists b, commit_step suggest a ch1 = Done b /\ str b = "")
  /\ (forall (suggest : string -> list string) (a : App) (ch1 : pyval),
        handle_char a ch1 = inr DeleteLast ->
        length (ten_prev_char a) = 10%nat ->
        exists b, commit_step suggest a ch1 = Done b
                  /\ str b = drop_last (str a))
  /\ (forall (suggest : string -> list string) (a : App) (ch1 : pyval)
             (s : string) (c : ascii),
        handle_char a ch1 = inr DeleteLast ->
        length (ten_prev_char a) = 10%nat ->
        str a = s ++ String c "" ->
        exists b, commit_step suggest a ch1 = Done b /\ str b = s).
Proof.
  assert (G : forall (suggest : string -> list string) (a : App) (ch1 : pyval),
             handle_char a ch1 = inr DeleteLast ->
             length (ten_prev_char a) = 10%nat ->
             exists b, commit_step suggest a ch1 = Done b
                       /\ str b = drop_last (str a)).
  { intros suggest a ch1 Hc Hlen.
    pose proof (commit_step_str suggest a ch1) as Hstr.
    rewrite Hc in Hstr. cbn [apply_commit] in Hstr.
    unfold commit_step in *. rewrite Hc in *. cbv zeta in *.
    cbn [ten_prev_char count record_symbol set_str] in *.
    unfold setitem in *. rewrite Hlen in *.
    pose proof (Z.mod_pos_bound (count a + 1) 10 ltac:(lia)) as Hb.
    destruct (Z.ltb_spec ((count a + 1) mod 10) (Z.of_nat 10)); [| lia].
    eexists. split; [reflexivity | exact Hstr]. }
  split; [reflexivity |]. split; [| split; [| split; [| split]]].
  - intros s H. apply strip_empty_iff. apply all_space_drop_last.
    now apply strip_empty_iff.
  - apply drop_last_snoc.
  - intros suggest a ch1 Hc Hs Hlen.
    destruct (G suggest a ch1 Hc Hlen) as (b & Hb & Hstr).
    exists b. split; [exact Hb |]. now rewrite Hstr, Hs.
  - exact G.
  - intros suggest a ch1 s c Hc Hlen Hs.
    destruct (G suggest a ch1 Hc Hlen) as (b & Hb & Hstr).
    exists b. split; [exact Hb |]. rewrite Hstr, Hs. apply drop_last_snoc.
Qed.

Lemma delete_last_on_empty_is_noop_witness :
  (exists b, commit_step echo erase_on_empty Next = Done b /\ str b = "")
  /\ (exists b, commit_step echo erase_on_word Next = Done b
                /\ str b = drop_last (str erase_on_word))
  /\ (exists b, commit_step echo erase_on_word Next = Done b /\ str b = " A").
Proof.
  destruct delete_last_on_empty_is_noop as (_ & _ & _ & H4 & H5 & H6).
  split; [| split].
  - apply (H4 echo erase_on_empty Next); reflexivity.
  - apply (H5 echo erase_on_word Next); reflexivity.
  - apply (H6 echo erase_on_word Next " A" "B"%char); reflexivity.
Defined.

(** C8: [clear_text] puts the sentence back to its initial value, the
    one-blank string that shows as the empty sentence, and the four
    suggestions back to the blank placeholder; every other field, and in
    particular the history, the previous symbol and the frame counter,
    is exactly as before. *)
Theorem clear_text_resets_text_only (a : App) :
  let b := clear_text a in
  str b = str init /\ strip (str b) = ""
  /\ word1 b = " " /\ word2 b = " " /\ word3 b = " " /\ word4 b = " "
  /\ ten_prev_char b = ten_prev_char a
  /\ prev_char b = prev_char a
  /\ count b = count a
  /\ model b = model a /\ word b = word a
  /\ current_symbol b = current_symbol a
  /\ ccc b = ccc a /\ pts b = pts a.
Proof. simpl. repeat split; reflexivity. Qed.

(** ** What the rules can produce *)

Lemma resolve_not_backspace (ch1 : Z) (lm : list point) :
  resolve ch1 lm <> Backspace.
Proof. unfold resolve, classify, Backspace. split_ifs; discriminate. Qed.

Lemma resolve_in_symbols (ch1 : Z) (lm : list point) :
  0 <= ch1 <= 7 -> exists s, resolve ch1 lm = PStr s /\ In s symbols.
Proof.
  intros H.
  assert (Hc : ch1 = 0 \/ ch1 = 1 \/ ch1 = 2 \/ ch1 = 3 \/ ch1 = 4
               \/ ch1 = 5 \/ ch1 = 6 \/ ch1 = 7) by lia.
  unfold resolve, classify, symbols.
  repeat (destruct Hc as [-> | Hc]); try subst ch1; simpl (_ =? _);
    cbv iota; split_ifs; eexists; (split; [reflexivity | simpl; tauto]).
Qed.

Lemma no_deletion (a : App) (ch1 : pyval) :
  no_backspace a -> handle_char a ch1 <> inr DeleteLast.
Proof.
  intros Hinv. unfold handle_char.
  destruct (_ && _); [| discriminate].
  destruct (getitem _ _) as [h |] eqn:E; [| discriminate].
  destruct (negb _); [| discriminate].
  destruct (pyval_eqb h (PStr "Backspace")) eqn:Eb.
  - apply pyval_eqb_eq in Eb. unfold getitem in E.
    unfold no_backspace in Hinv. rewrite Forall_lookup in Hinv.
    exfalso. now apply (Hinv _ _ E).
  - destruct h; discriminate.
Qed.

Lemma commit_step_no_backspace (suggest : string -> list string)
      (a : App) (ch1 : pyval) :
  no_backspace a -> ch1 <> Backspace ->
  no_backspace (final (commit_step suggest a ch1)).
Proof.
  intros Hinv Hch. unfold commit_step.
  destruct (handle_char a ch1) as [e | c]; [exact Hinv |].
  simpl. unfold setitem.
  destruct (_ <? _); simpl; [| exact Hinv].
  unfold no_backspace.
  match goal with
  | |- context [update_suggestions suggest ?s] =>
      destruct (update_suggestions_frame suggest s) as (_ & _ & _ & -> & _)
  end.
  simpl. now apply Forall_insert.
Qed.

Lemma frame_no_backspace (suggest : string -> list string)
      (a : App) (f : list point * Z) :
  no_backspace a -> no_backspace (frame suggest a f).
Proof.
  intros Hinv. unfold frame, predict.
  destruct (_ || _); [exact Hinv |].
  apply commit_step_no_backspace; [exact Hinv | apply resolve_not_backspace].
Qed.

Lemma reachable_no_backspace (suggest : string -> list string) (a : App) :
  reachable suggest a -> no_backspace a.
Proof.
  induction 1 as [| a _ IH | a f _ IH | a _ IH].
  - unfold no_backspace. simpl. repeat constructor; discriminate.
  - exact IH.
  - now apply frame_no_backspace.
  - exact IH.
Qed.

Lemma frame_length (suggest : string -> list string)
      (a : App) (f : list point * Z) :
  no_backspace a ->
  (String.length (str a) <= String.length (str (frame suggest a f)))%nat.
Proof.
  intros Hinv. unfold frame, predict.
  destruct (_ || _); [simpl; lia |].
  rewrite commit_step_str.
  pose proof (no_deletion (store_landmarks (fst f) a)
                          (resolve (snd f) (fst f)) Hinv) as Hnd.
  simpl (pts _) in *.
  destruct (handle_char _ _) as [e | [| | t]]; simpl; try lia.
  - congruence.
  - rewrite length_append. lia.
Qed.

(** C10: for a group index in [0,7] and 21 landmarks the resolved
    symbol is one of the fifteen letters A B C D E F G H J L O P S X Y,
    the blank or "next", hence never "Backspace"; so in every state
    reached from the initial one the commit block cannot choose the
    deletion, and no frame makes the sentence shorter. *)
Theorem backspace_never_resolved :
  (forall (ch1 : Z) (lm : list point),
      0 <= ch1 <= 7 -> length lm = 21%nat ->
      exists s, disambiguate ch1 lm = Some (PStr s)
                /\ In s symbols /\ PStr s <> Backspace)
  /\ ~ In "Backspace" symbols
  /\ (forall (suggest : string -> list string) (a : App),
        reachable suggest a ->
        (forall (lm : list point) (ch1 : pyval),
            handle_char (store_landmarks lm a) ch1 <> inr DeleteLast)
        /\ (forall f : list point * Z,
              (String.length (str a)
               <= String.length (str (frame suggest a f)))%nat)).
Proof.
  split; [| split].
  - intros ch1 lm Hch Hlen. rewrite (disambiguate_21 _ _ Hlen).
    destruct (resolve_in_symbols ch1 lm Hch) as (s & Hs & Hin).
    exists s. split; [now rewrite Hs |]. split; [exact Hin |].
    rewrite <- Hs. apply resolve_not_backspace.
  - unfold symbols. simpl. intros H.
    repeat (destruct H as [H | H]; [discriminate |]). exact H.
  - intros suggest a Hr.
    pose proof (reachable_no_backspace suggest a Hr) as Hinv.
    split.
    + intros lm ch1. now apply no_deletion.
    + intros f. now apply frame_length.
Qed.

Lemma backspace_never_resolved_witness :
  (exists s, disambiguate 2 open_hand = Some (PStr s)
             /\ In s symbols /\ PStr s <> Backspace)
  /\ (String.length (str (load_model init))
      <= String.length
           (str (frame echo (load_model init) (open_hand, 4%Z))))%nat.
Proof.
  destruct backspace_never_resolved as (H1 & _ & H3). split.
  - apply (H1 2 open_hand); [lia | reflexivity].
  - apply (H3 echo (load_model init)); repeat constructor.
Defined.

(** ** The suggestion refresh *)

Lemma len_zero_iff (s : string) : (len s =? 0) = true <-> s = "".
Proof.
  unfold len. rewrite Z.eqb_eq. destruct s; simpl; split; intros H;
    try reflexivity; try discriminate; lia.
Qed.

Lemma nonblank_test (s : string) :
  strip s <> "" -> negb (len (strip s) =? 0) = true.
Proof.
  intros H. apply negb_true_iff.
  destruct (len (strip s) =? 0) eqn:E; [| reflexivity].
  now apply len_zero_iff in E.
Qed.

Lemma active_word_nonblank (s : string) :
  strip (active_word s) <> "" -> strip s <> "".
Proof.
  intros H Hs. apply H. apply strip_empty_iff.
  apply all_space_slice_from. now apply strip_empty_iff.
Qed.

Lemma slot_nth (l : list string) (k : nat) :
  (1 <= k)%nat -> slot l k = nth (k - 1) l " ".
Proof.
  intros Hk. unfold slot.
  destruct (Z.leb_spec (Z.of_nat k) (Z.of_nat (length l))); [reflexivity |].
  symmetry. apply nth_overflow. lia.
Qed.

Lemma first_four_padded (l : list string) :
  [nth 0 l " "; nth 1 l " "; nth 2 l " "; nth 3 l " "]
  = firstn 4 (l ++ repeat " " 4)%list.
Proof. destruct l as [| a [| b [| c [| d l]]]]; reflexivity. Qed.

(** C7 (as the code has it): when the active word, the part of the
    sentence after its last blank, is not blank, the refresh asks the
    dictionary for that word as it stands in the sentence, without
    changing its case, and the four suggestions are the first four
    answers in the dictionary's order, padded with the one-blank
    placeholder; the answers for other words play no part. *)
Theorem refresh_queries_word_as_is (suggest : string -> list string)
        (a : App) :
  strip (active_word (str a)) <> "" ->
  let b := update_suggestions suggest a in
  let answers := suggest (active_word (str a)) in
  word b = active_word (str a)
  /\ [word1 b; word2 b; word3 b; word4 b]
     = firstn 4 (answers ++ repeat " " 4)%list
  /\ (forall other : string -> list string,
        other (active_word (str a)) = answers ->
        update_suggestions other a = b).
Proof.
  intros Hw b answers.
  pose proof (nonblank_test _ (active_word_nonblank _ Hw)) as Hs.
  pose proof (nonblank_test _ Hw) as Hw'.
  assert (Hb : forall f : string -> list string,
             update_suggestions f a =
             set_suggestions (slot (f (active_word (str a))) 1)
               (slot (f (active_word (str a))) 2)
               (slot (f (active_word (str a))) 3)
               (slot (f (active_word (str a))) 4)
               (set_word (active_word (str a)) a)).
  { intros f. unfold update_suggestions. rewrite Hs. cbv zeta.
    fold (active_word (str a)). now rewrite Hw'. }
  subst b. rewrite Hb. fold answers.
  split; [reflexivity |]. split.
  - simpl. rewrite !slot_nth by lia. apply first_four_padded.
  - intros other Ho. rewrite Hb, Ho. reflexivity.
Qed.

Lemma refresh_queries_word_as_is_witness :
  word (update_suggestions echo typed_A) = active_word (str typed_A)
  /\ [word1 (update_suggestions echo typed_A);
      word2 (update_suggestions echo typed_A);
      word3 (update_suggestions echo typed_A);
      word4 (update_suggestions echo typed_A)]
     = firstn 4 (echo (active_word (str typed_A)) ++ repeat " " 4)%list
  /\ (forall other : string -> list string,
        other (active_word (str typed_A)) = echo (active_word (str typed_A)) ->
        update_suggestions other typed_A = update_suggestions echo typed_A).
Proof.
  apply (refresh_queries_word_as_is echo typed_A). discriminate.
Defined.

(** C7 (as written) fails: with the sentence " A" and a dictionary that
    answers with the queried word, the first suggestion is "A", the
    answer for the word as typed, and not "a", the answer for its
    lowercase form. *)
Lemma refresh_does_not_lowercase :
  active_word (str typed_A) = "A"
  /\ lower (active_word (str typed_A)) = "a"
  /\ word1 (update_suggestions echo typed_A) = "A"
  /\ word1 (update_suggestions echo typed_A)
     <> slot (echo (lower (active_word (str typed_A)))) 1
  /\ update_suggestions echo typed_A <> spec_refresh_suggestions echo typed_A.
Proof.
  repeat split; try reflexivity; vm_compute; discriminate.
Qed.

(** ** Sample runs *)

(** A distance of exactly 42 is not greater than 42. *)
Example boundary_42_resolves_to_O :
  dist_sq (pt boundary_hand 12) (pt boundary_hand 4) = 42 * 42
  /\ disambiguate 2 boundary_hand = Some (PStr "O").
Proof. split; reflexivity. Qed.

(** "L" shown for three frames and then confirmed is committed. *)
Example spell_L :
  str (run echo (load_model init)
         [(open_hand, 4); (open_hand, 4); (open_hand, 4); (next_hand, 4)])
  = " L".
Proof. reflexivity. Qed.

(** Confirmed one frame earlier, the slot read still holds the initial
    blank. *)
Example spell_L_too_early :
  str (run echo (load_model init)
         [(open_hand, 4); (open_hand, 4); (next_hand, 4)])
  = "  ".
Proof. reflexivity. Qed.

(** * Further properties of the code *)

(** ** The remaining rules of [predict] *)

Lemma threshold_rule (x y : point) (t : Z) (c1 c2 : string) :
  0 <= t -> c1 <> c2 ->
  (Some (PStr (if distance_gt x y t then c1 else c2)) = Some (PStr c1)
     <-> (IZR t < distance x y)%R)
  /\ (Some (PStr (if distance_gt x y t then c1 else c2)) = Some (PStr c2)
     <-> (distance x y <= IZR t)%R).
Proof.
  intros Ht Hc.
  pose proof (distance_gt_spec x y t Ht) as Hgt.
  pose proof (distance_le_spec x y t Ht) as Hle.
  destruct (distance_gt x y t); split; split; intros H.
  - now apply Hgt.
  - reflexivity.
  - congruence.
  - apply Hle in H. discriminate.
  - congruence.
  - apply Hgt in H. discriminate.
  - now apply Hle.
  - reflexivity.
Qed.

(** X1: for group 1 the symbol of a 21-point frame follows one table
    over the landmarks: with point 6 not below point 8, or points 10 and
    12 level, it is "F" and no special gesture can replace it; with 6
    and 10 both below their fingertips it is "B" unless the confirm
    gesture holds; with 6 below and 10 above it is "D" unless the blank
    gesture holds. *)
Theorem class1_decision_table (lm : list point) :
  length lm = 21%nat ->
  disambiguate 1 lm =
    Some (PStr
      (if py lm 6 >? py lm 8 then
         if py lm 10 >? py lm 12 then
           if (px lm 4 <? px lm 5) && (py lm 14 >? py lm 16)
           then "next" else "B"
         else if py lm 10 <? py lm 12 then
           if (py lm 14 <? py lm 16) && (py lm 18 >? py lm 20)
           then " " else "D"
         else "F"
       else "F"))
  /\ (disambiguate 1 lm = Some (PStr "F")
      <-> py lm 6 <= py lm 8 \/ py lm 10 = py lm 12).
Proof.
  intros Hlen. rewrite (disambiguate_21 _ _ Hlen).
  unfold resolve, classify, space_gesture, next_gesture.
  change (1 =? 0) with false. change (1 =? 2) with false.
  change (1 =? 3) with false. change (1 =? 4) with false.
  change (1 =? 5) with false. change (1 =? 6) with false.
  change (1 =? 7) with false. change (1 =? 1) with true. cbv iota.
  destruct (Z.gtb_spec (py lm 6) (py lm 8)) as [H68 | H68];
  destruct (Z.gtb_spec (py lm 10) (py lm 12)) as [Hgt | Hgt];
  destruct (Z.ltb_spec (py lm 10) (py lm 12)) as [Hlt | Hlt];
  try lia;
  destruct (px lm 4 <? px lm 5); destruct (py lm 14 >? py lm 16);
  destruct (py lm 14 <? py lm 16); destruct (py lm 18 >? py lm 20);
  cbn [andb negb]; (split; [reflexivity |]);
  (split; [intros H; try discriminate H; lia | intros H; try reflexivity; lia]).
Qed.

Lemma class1_decision_table_witness :
  disambiguate 1 b_hand = Some (PStr "B").
Proof.
  exact (proj1 (class1_decision_table b_hand eq_refl)).
Defined.

(** X2: with neither special gesture present, group 3 resolves to "G"
    exactly when the distance between points 8 and 12 is greater than
    72 and to "H" otherwise, and group 7 resolves to "Y" exactly when
    the distance between points 8 and 4 is greater than 42 and to "J"
    otherwise. *)
Theorem class3_class7_thresholds (lm : list point) :
  length lm = 21%nat ->
  space_gesture lm = false -> next_gesture lm = false ->
  (disambiguate 3 lm = Some (PStr "G")
     <-> (72 < distance (pt lm 8) (pt lm 12))%R)
  /\ (disambiguate 3 lm = Some (PStr "H")
     <-> (distance (pt lm 8) (pt lm 12) <= 72)%R)
  /\ (disambiguate 7 lm = Some (PStr "Y")
     <-> (42 < distance (pt lm 8) (pt lm 4))%R)
  /\ (disambiguate 7 lm = Some (PStr "J")
     <-> (distance (pt lm 8) (pt lm 4) <= 42)%R).
Proof.
  intros Hlen Hs Hn.
  rewrite !(disambiguate_21 _ _ Hlen), !(resolve_plain _ _ Hs Hn).
  unfold classify.
  change (3 =? 0) with false. change (3 =? 2) with false.
  change (3 =? 3) with true.
  change (7 =? 0) with false. change (7 =? 2) with false.
  change (7 =? 3) with false. change (7 =? 4) with false.
  change (7 =? 5) with false. change (7 =? 6) with false.
  change (7 =? 7) with true. cbv iota.
  pose proof (threshold_rule (pt lm 8) (pt lm 12) 72 "G" "H"
                ltac:(lia) ltac:(discriminate)) as [H1 H2].
  pose proof (threshold_rule (pt lm 8) (pt lm 4) 42 "Y" "J"
                ltac:(lia) ltac:(discriminate)) as [H3 H4].
  repeat split; first [apply H1 | apply H2 | apply H3 | apply H4].
Qed.

Lemma class3_class7_thresholds_witness :
  (disambiguate 3 open_hand = Some (PStr "G")
     <-> (72 < distance (pt open_hand 8) (pt open_hand 12))%R)
  /\ (disambiguate 3 open_hand = Some (PStr "H")
     <-> (distance (pt open_hand 8) (pt open_hand 12) <= 72)%R)
  /\ (disambiguate 7 open_hand = Some (PStr "Y")
     <-> (42 < distance (pt open_hand 8) (pt open_hand 4))%R)
  /\ (disambiguate 7 open_hand = Some (PStr "J")
     <-> (distance (pt open_hand 8) (pt open_hand 4) <= 42)%R).
Proof.
  apply (class3_class7_thresholds open_hand); reflexivity.
Defined.

(** X3: the resolved symbol depends on the landmarks only through
    points 4, 5, 6, 8, 10, 12, 14, 16, 18 and 20: two 21-point frames
    that agree there resolve to the same symbol for every group. *)
Theorem resolve_reads_ten_points (ch1 : Z) (lm lm' : list point) :
  length lm = 21%nat -> length lm' = 21%nat ->
  Forall (fun i => pt lm i = pt lm' i) read_points ->
  disambiguate ch1 lm = disambiguate ch1 lm'.
Proof.
  intros Hlen Hlen' H.
  rewrite (disambiguate_21 _ _ Hlen), (disambiguate_21 _ _ Hlen').
  unfold read_points in H.
  repeat match goal with
         | H : Forall _ (_ :: _) |- _ =>
             let E := fresh "E" in apply Forall_cons in H as [E H]
         end.
  unfold resolve, classify, space_gesture, next_gesture, px, py.
  now rewrite E, E0, E1, E2, E3, E4, E5, E6, E7, E8.
Qed.

Lemma resolve_reads_ten_points_witness :
  disambiguate 1 b_hand = disambiguate 1 b_hand_moved.
Proof.
  apply (resolve_reads_ten_points 1 b_hand b_hand_moved);
    [reflexivity | reflexivity | repeat constructor].
Defined.

(** ** The history as a ring buffer *)

Lemma mod10_bound (c : Z) : 0 <= c mod 10 < 10.
Proof. apply Z.mod_pos_bound. lia. Qed.

Lemma slot_neq (c : Z) (j : Z) :
  0 < j < 10 -> Z.to_nat ((c - j) mod 10) <> Z.to_nat (c mod 10).
Proof.
  intros Hj Heq.
  pose proof (mod10_bound (c - j)). pose proof (mod10_bound c).
  assert (E : (c - j) mod 10 = c mod 10) by lia.
  pose proof (Z.div_mod (c - j) 10 ltac:(lia)).
  pose proof (Z.div_mod c 10 ltac:(lia)).
  lia.
Qed.

Lemma setitem_ok (l : list pyval) (c : Z) (v : pyval) :
  length l = 10%nat ->
  setitem l (c mod 10) v = Some (<[Z.to_nat (c mod 10) := v]> l).
Proof.
  intros Hlen. unfold setitem. rewrite Hlen.
  pose proof (mod10_bound c).
  destruct (Z.ltb_spec (c mod 10) (Z.of_nat 10)); [reflexivity | lia].
Qed.

(** A call on a ten-slot history that does not raise in the commit
    block runs to its end. *)
Lemma commit_step_done (suggest : string -> list string)
      (a : App) (ch1 : pyval) (c : commit) :
  length (ten_prev_char a) = 10%nat ->
  handle_char a ch1 = inr c ->
  exists b, commit_step suggest a ch1 = Done b
    /\ str b = apply_commit c (str a) /\ prev_char b = ch1
    /\ count b = count a + 1
    /\ ten_prev_char b
       = <[Z.to_nat ((count a + 1) mod 10) := ch1]> (ten_prev_char a)
    /\ model b = model a
    /\ current_symbol b = match ch1 with PStr s => s | PInt _ => "" end.
Proof.
  intros Hlen Hc. unfold commit_step. rewrite Hc. cbv zeta.
  cbn [ten_prev_char count record_symbol set_str].
  rewrite (setitem_ok _ _ _ Hlen).
  eexists. split; [reflexivity |].
  match goal with
  | |- context [update_suggestions suggest ?s] =>
      destruct (update_suggestions_frame suggest s) as (-> & -> & -> & -> & ->);
      assert (Hcur : current_symbol (update_suggestions suggest s)
                     = current_symbol s)
  end.
  { unfold update_suggestions. split_ifs; reflexivity. }
  rewrite Hcur. repeat split; reflexivity.
Qed.

Lemma handle_char_strings (a : App) (ch1 : pyval) :
  Forall (fun v => is_str v = true) (ten_prev_char a) ->
  length (ten_prev_char a) = 10%nat ->
  exists c, handle_char a ch1 = inr c.
Proof.
  intros Hall Hlen. unfold handle_char.
  destruct (_ && _); [| now eexists].
  destruct (getitem _ _) as [h |] eqn:E.
  - unfold getitem in E. rewrite Forall_lookup in Hall.
    specialize (Hall _ _ E). destruct h as [n | s]; [discriminate |].
    destruct (negb _); [| now eexists].
    destruct (pyval_eqb _ _); now eexists.
  - unfold getitem, lookback_slot in E. apply lookup_ge_None in E.
    pose proof (mod10_bound (count a - 2)). lia.
Qed.

(** X4: on a history of ten strings a call of the commit block with a
    string symbol never raises: it runs to its end, the history keeps
    its ten string slots, the counter advances by one and the slot
    [count mod 10] holds the symbol just seen.  The initial state is
    such a state, and so [predict] never raises for a group index in
    [0,7]. *)
Theorem predict_never_raises (suggest : string -> list string) :
  well_formed init
  /\ (forall (a : App) (ch1 : pyval),
        well_formed a -> is_str ch1 = true ->
        exists b, commit_step suggest a ch1 = Done b /\ well_formed b
          /\ count b = count a + 1 /\ prev_char b = ch1
          /\ getitem (ten_prev_char b) (count b mod 10) = Some ch1)
  /\ (forall (a : App) (ch : Z),
        well_formed a -> 0 <= ch <= 7 ->
        exists b, predict suggest a ch = Done b /\ well_formed b).
Proof.
  assert (Hstep : forall (a : App) (ch1 : pyval),
        well_formed a -> is_str ch1 = true ->
        exists b, commit_step suggest a ch1 = Done b /\ well_formed b
          /\ count b = count a + 1 /\ prev_char b = ch1
          /\ getitem (ten_prev_char b) (count b mod 10) = Some ch1).
  { intros a ch1 [Hlen Hall] Hch.
    destruct (handle_char_strings a ch1 Hall Hlen) as [c Hc].
    destruct (commit_step_done suggest a ch1 c Hlen Hc)
      as (b & Hb & _ & Hp & Hcount & Hhist & _).
    exists b. split; [exact Hb |].
    pose proof (mod10_bound (count a + 1)) as Hbd.
    repeat split.
    - rewrite Hhist, length_insert. exact Hlen.
    - rewrite Hhist. now apply Forall_insert.
    - exact Hcount.
    - exact Hp.
    - unfold getitem. rewrite Hhist, Hcount.
      apply list_lookup_insert_eq. lia. }
  split; [| split].
  - split; [reflexivity |]. simpl. repeat constructor.
  - exact Hstep.
  - intros a ch Hwf Hch. unfold predict.
    destruct (_ || _); [now exists a |].
    destruct (resolve_in_symbols ch (pts a) Hch) as (s & Hs & _).
    destruct (Hstep a (resolve ch (pts a)) Hwf) as (b & Hb & Hwb & _).
    + now rewrite Hs.
    + now exists b.
Qed.

Lemma predict_never_raises_witness :
  exists b, predict echo (store_landmarks open_hand (load_model init)) 4
            = Done b /\ well_formed b.
Proof.
  apply (proj2 (proj2 (predict_never_raises echo))).
  - apply (proj1 (predict_never_raises echo)).
  - lia.
Defined.

Lemma feed_snoc (suggest : string -> list string)
      (a : App) (syms : list pyval) (s : pyval) :
  feed suggest a (syms ++ [s])%list
  = final (commit_step suggest (feed suggest a syms) s).
Proof. unfold feed. now rewrite fold_left_app. Qed.

Lemma commit_step_length (suggest : string -> list string)
      (a : App) (ch1 : pyval) :
  length (ten_prev_char (final (commit_step suggest a ch1)))
  = length (ten_prev_char a).
Proof.
  unfold commit_step.
  destruct (handle_char a ch1) as [e | c]; [reflexivity |].
  cbv zeta. unfold setitem.
  destruct (_ <? _); [| reflexivity].
  cbn [final].
  match goal with
  | |- context [update_suggestions suggest ?s] =>
      destruct (update_suggestions_frame suggest s) as (_ & _ & _ & -> & _)
  end.
  cbn [ten_prev_char set_history]. apply length_insert.
Qed.

Lemma feed_length (suggest : string -> list string)
      (syms : list pyval) (a : App) :
  length (ten_prev_char (feed suggest a syms)) = length (ten_prev_char a).
Proof.
  revert a. induction syms as [| s syms IH]; intros a; [reflexivity |].
  cbn [feed fold_left]. fold (feed suggest (final (commit_step suggest a s)) syms).
  now rewrite IH, commit_step_length.
Qed.

(** X5: on a ten-slot history, a string symbol other than "next" that
    is followed by two frames other than "next" and then by "next" is
    the one committed, whatever the state before: a string other than
    "Backspace" is appended to the sentence, "Backspace" removes the
    last character; the two frames in between are not committed.  (A
    held "next" is excluded: the slot read then holds "next" and the
    commit block appends nothing for it.) *)
Theorem held_symbol_is_committed (suggest : string -> list string)
        (a : App) (s : string) (x y : pyval) :
  length (ten_prev_char a) = 10%nat ->
  s <> "next" -> x <> Next -> y <> Next ->
  str (feed suggest a [PStr s; x; y; Next])
  = if String.eqb s "Backspace" then drop_last (str a) else str a ++ s.
Proof.
  intros Hlen Hs Hx Hy.
  assert (Hs' : PStr s <> Next) by (unfold Next; congruence).
  cbn [feed fold_left].
  destruct (commit_step_other_fields suggest a (PStr s) Hs' Hlen)
    as (S1 & P1 & C1 & T1).
  set (a1 := final (commit_step suggest a (PStr s))) in *.
  assert (L1 : length (ten_prev_char a1) = 10%nat)
    by (rewrite T1, length_insert; exact Hlen).
  destruct (commit_step_other_fields suggest a1 x Hx L1)
    as (S2 & P2 & C2 & T2).
  set (a2 := final (commit_step suggest a1 x)) in *.
  assert (L2 : length (ten_prev_char a2) = 10%nat)
    by (rewrite T2, length_insert; exact L1).
  destruct (commit_step_other_fields suggest a2 y Hy L2)
    as (S3 & P3 & C3 & T3).
  set (a3 := final (commit_step suggest a2 y)) in *.
  assert (Hget : getitem (ten_prev_char a3) (lookback_slot a3) = Some (PStr s)).
  { unfold getitem, lookback_slot. rewrite T3, T2, T1, C3, C2, C1.
    replace (count a + 1 + 1 + 1 - 2) with (count a + 1) by lia.
    pose proof (slot_neq (count a + 1 + 1 + 1) 2 ltac:(lia)) as N3.
    pose proof (slot_neq (count a + 1 + 1) 1 ltac:(lia)) as N2.
    replace (count a + 1 + 1 + 1 - 2) with (count a + 1) in N3 by lia.
    replace (count a + 1 + 1 - 1) with (count a + 1) in N2 by lia.
    rewrite list_lookup_insert_ne by congruence.
    rewrite list_lookup_insert_ne by congruence.
    apply list_lookup_insert_eq.
    pose proof (mod10_bound (count a + 1)). lia. }
  rewrite commit_step_str. unfold handle_char. rewrite Hget, P3.
  apply pyval_eqb_neq in Hy. unfold Next in Hy. rewrite Hy.
  change (pyval_eqb Next (PStr "next")) with true. cbn [pyval_eqb andb negb].
  destruct (String.eqb_spec s "next") as [E | _]; [contradiction |].
  cbn [negb].
  destruct (String.eqb s "Backspace"); cbn [apply_commit];
    now rewrite S3, S2, S1.
Qed.

Lemma held_symbol_is_committed_witness :
  str (feed echo held_A [PStr "L"; Letter "A"; Letter "A"; Next])
  = if String.eqb "L" "Backspace" then drop_last (str held_A)
    else str held_A ++ "L".
Proof.
  apply (held_symbol_is_committed echo held_A "L" (Letter "A") (Letter "A"));
    [reflexivity | discriminate | discriminate | discriminate].
Defined.

(** X6: the history is a ring of the last ten symbols: after any run
    of string symbols fed to a history of ten strings, the history still
    has ten string slots, the counter has advanced by the length of the
    run, and the slot [(count - j) mod 10] holds the symbol seen [j]
    frames ago, for every [j] below ten and below the length of the
    run. *)
Theorem history_holds_last_ten (suggest : string -> list string)
        (syms : list pyval) (a : App) :
  well_formed a -> Forall (fun v => is_str v = true) syms ->
  let b := feed suggest a syms in
  well_formed b
  /\ count b = count a + Z.of_nat (length syms)
  /\ (forall j : nat,
        (j < 10)%nat -> (j < length syms)%nat ->
        getitem (ten_prev_char b) ((count b - Z.of_nat j) mod 10)
        = nth_error syms (length syms - 1 - j)).
Proof.
  intros Hwf. induction syms as [| s syms IH] using rev_ind; intros Hall.
  - cbn. split; [exact Hwf |]. split; [lia |]. intros j _ Hj. cbn in Hj. lia.
  - apply Forall_app in Hall as [Hall Hs].
    apply Forall_cons in Hs as [Hs _].
    specialize (IH Hall). cbv zeta in IH. destruct IH as (Hwb & Hc & Hslots).
    cbv zeta. rewrite feed_snoc.
    set (b := feed suggest a syms) in *.
    destruct Hwb as [Hlen Hstr].
    destruct (handle_char_strings b s Hstr Hlen) as [c Hcm].
    destruct (commit_step_done suggest b s c Hlen Hcm)
      as (b' & Hb' & _ & _ & Hcount & Hhist & _).
    rewrite Hb'. cbn [final].
    pose proof (mod10_bound (count b + 1)) as Hbd.
    split; [split |]; [| | split].
    + rewrite Hhist, length_insert. exact Hlen.
    + rewrite Hhist. now apply Forall_insert.
    + rewrite Hcount, Hc, length_app. cbn. lia.
    + intros j Hj10 Hj. rewrite length_app in *. cbn [length] in *.
      unfold getitem. rewrite Hhist, Hcount.
      destruct j as [| j].
      * replace (count b + 1 - Z.of_nat 0) with (count b + 1) by lia.
        rewrite list_lookup_insert_eq by lia.
        replace (length syms + 1 - 1 - 0)%nat with (length syms) by lia.
        rewrite nth_error_app2 by lia.
        now rewrite Nat.sub_diag.
      * rewrite list_lookup_insert_ne.
        2:{ intros E. symmetry in E. revert E.
            apply (slot_neq (count b + 1) (Z.of_nat (S j))). lia. }
        replace (count b + 1 - Z.of_nat (S j)) with (count b - Z.of_nat j)
          by lia.
        specialize (Hslots j ltac:(lia) ltac:(lia)). unfold getitem in Hslots.
        rewrite Hslots.
        rewrite nth_error_app1 by lia.
        f_equal. lia.
Qed.

Lemma history_holds_last_ten_witness :
  well_formed held_A
  /\ count held_A = count init + 3
  /\ (forall j : nat,
        (j < 10)%nat -> (j < 3)%nat ->
        getitem (ten_prev_char held_A) ((count held_A - Z.of_nat j) mod 10)
        = nth_error [Letter "A"; Letter "A"; Letter "A"] (3 - 1 - j)).
Proof.
  apply (history_holds_last_ten echo
           [Letter "A"; Letter "A"; Letter "A"] init).
  - split; [reflexivity | simpl; repeat constructor].
  - repeat constructor.
Defined.

(** ** Holding a symbol *)

Lemma feed_cons (suggest : string -> list string)
      (a : App) (s : pyval) (syms : list pyval) :
  feed suggest a (s :: syms)
  = feed suggest (final (commit_step suggest a s)) syms.
Proof. reflexivity. Qed.

Lemma held_next_quiet (suggest : string -> list string) (k : nat) (a : App) :
  prev_char a = Next \/ (exists e, handle_char a Next = inl e) ->
  str (feed suggest a (repeat Next k)) = str a.
Proof.
  revert a. induction k as [| k IH]; intros a H; [reflexivity |].
  cbn [repeat]. rewrite feed_cons.
  destruct (repeat_next_quiet suggest a H) as (_ & Hs & H').
  rewrite IH by exact H'. exact Hs.
Qed.

(** X7: however long "next" is held, only its first frame can change
    the sentence: from every state, a run of "next" symbols of any
    length leaves the sentence as the first of them left it. *)
Theorem held_next_commits_once (suggest : string -> list string)
        (a : App) (k : nat) :
  str (feed suggest a (Next :: repeat Next k))
  = str (final (commit_step suggest a Next)).
Proof.
  rewrite feed_cons. apply held_next_quiet.
  destruct (after_next suggest a) as [H | [Hb [e He]]]; [now left |].
  right. exists e. now rewrite Hb.
Qed.

(** X8: an integer in the slot that a "next" reads makes the call raise
    [TypeError] before any field is assigned: the state is unchanged,
    the raise repeats on every further "next", and the sentence does not
    move until another symbol has been seen. *)
Theorem integer_in_lookback_blocks_next (suggest : string -> list string)
        (a : App) (n : Z) :
  getitem (ten_prev_char a) (lookback_slot a) = Some (PInt n) ->
  prev_char a <> Next ->
  commit_step suggest a Next = Raised TypeError a
  /\ (forall k : nat, feed suggest a (repeat Next k) = a).
Proof.
  intros Hget Hprev.
  assert (Hh : handle_char a Next = inl TypeError).
  { unfold handle_char. rewrite Hget.
    apply pyval_eqb_neq in Hprev. unfold Next in Hprev. rewrite Hprev.
    reflexivity. }
  assert (Hstep : commit_step suggest a Next = Raised TypeError a).
  { unfold commit_step. now rewrite Hh. }
  split; [exact Hstep |].
  induction k as [| k IH]; [reflexivity |].
  cbn [repeat]. rewrite feed_cons, Hstep. exact IH.
Qed.

Lemma integer_in_lookback_blocks_next_witness :
  commit_step echo held_int Next = Raised TypeError held_int
  /\ (forall k : nat, feed echo held_int (repeat Next k) = held_int).
Proof.
  apply (integer_in_lookback_blocks_next echo held_int 9);
    [reflexivity | discriminate].
Defined.

(** ** What a session can type *)

Lemma resolve_symbol (ch1 : Z) (lm : list point) :
  match resolve ch1 lm with
  | PStr s => In s symbols
  | PInt _ => True
  end.
Proof.
  unfold resolve, classify, symbols. split_ifs; simpl; tauto.
Qed.

Lemma symbol_char (s : string) :
  In s symbols -> s <> "next" ->
  exists c, s = String c EmptyString /\ char_in c alphabet = true.
Proof.
  unfold symbols. simpl. intros H Hn.
  repeat (destruct H as [<- | H];
          [first [ contradiction
                 | eexists; split; [reflexivity | reflexivity] ] |]).
  contradiction.
Qed.

Lemma all_in_append (alpha s t : string) :
  all_in alpha s = true -> all_in alpha t = true ->
  all_in alpha (s ++ t) = true.
Proof.
  intros Hs Ht. induction s as [| c s IH]; simpl in *; [exact Ht |].
  apply andb_true_iff in Hs as [Hc Hs]. now rewrite Hc, IH.
Qed.

Lemma all_in_drop_last (alpha s : string) :
  all_in alpha s = true -> all_in alpha (drop_last s) = true.
Proof.
  induction s as [| c s IH]; simpl; [reflexivity |].
  intros H. apply andb_true_iff in H as [Hc Hs].
  destruct s as [| d s']; [reflexivity |].
  change (char_in c alpha && all_in alpha (drop_last (String d s')) = true).
  now rewrite Hc, IH.
Qed.

(** What the commit block appends comes from the slot it read. *)
Lemma appended_from_history (a : App) (ch1 : pyval) (s : string) :
  handle_char a ch1 = inr (AppendChar s) ->
  In (PStr s) (ten_prev_char a) /\ s <> "next" /\ ch1 = Next.
Proof.
  unfold handle_char. intros H.
  destruct (pyval_eqb ch1 (PStr "next")) eqn:Ech; [| discriminate].
  apply pyval_eqb_eq in Ech.
  destruct (negb (pyval_eqb (prev_char a) (PStr "next"))); [| discriminate].
  cbn [andb] in H.
  destruct (getitem _ _) as [h |] eqn:E; [| discriminate].
  destruct (negb (pyval_eqb h (PStr "next"))) eqn:En; [| discriminate].
  destruct (pyval_eqb h (PStr "Backspace")); [discriminate |].
  destruct h as [n | t]; [discriminate |].
  injection H as ->.
  split; [| split; [| exact Ech]].
  - unfold getitem in E. apply list_elem_of_lookup_2 in E.
    now apply list_elem_of_In.
  - apply negb_true_iff in En. cbn in En.
    now apply String.eqb_neq in En.
Qed.

Lemma commit_step_history_symbols (suggest : string -> list string)
      (a : App) (ch1 : pyval) :
  history_symbols a ->
  match ch1 with PStr s => In s symbols | PInt _ => True end ->
  history_symbols (final (commit_step suggest a ch1)).
Proof.
  intros Hinv Hch. unfold commit_step.
  destruct (handle_char a ch1) as [e | c]; [exact Hinv |].
  cbv zeta. unfold setitem.
  destruct (_ <? _); cbn [final]; [| exact Hinv].
  unfold history_symbols.
  match goal with
  | |- context [update_suggestions suggest ?s] =>
      destruct (update_suggestions_frame suggest s) as (_ & _ & _ & -> & _)
  end.
  cbn [ten_prev_char set_history]. now apply Forall_insert.
Qed.

(** One frame from a state whose history holds symbols only: the
    sentence is unchanged or one character of the alphabet longer. *)
Lemma frame_sentence (suggest : string -> list string)
      (a : App) (f : list point * Z) :
  history_symbols a -> no_backspace a ->
  str (frame suggest a f) = str a
  \/ (exists c, char_in c alphabet = true
             /\ str (frame suggest a f) = str a ++ String c EmptyString
             /\ resolve (snd f) (fst f) = Next).
Proof.
  intros Hinv Hnb. unfold frame, predict.
  destruct (_ || _); [now left |].
  rewrite commit_step_str. cbn [pts store_landmarks].
  pose proof (no_deletion (store_landmarks (fst f) a)
                (resolve (snd f) (fst f)) Hnb) as Hnd.
  destruct (handle_char _ _) as [e | [| | t]] eqn:E;
    [now left | now left | congruence |].
  apply appended_from_history in E as (Hin & Hnx & Hch).
  cbn [ten_prev_char store_landmarks] in Hin.
  unfold history_symbols in Hinv. rewrite Forall_forall in Hinv.
  apply list_elem_of_In in Hin. specialize (Hinv _ Hin). cbn in Hinv.
  destruct (symbol_char t Hinv Hnx) as (c & -> & Hc).
  right. exists c. repeat split; assumption.
Qed.

Lemma reachable_history_symbols (suggest : string -> list string) (a : App) :
  reachable suggest a -> history_symbols a /\ all_in alphabet (str a) = true.
Proof.
  induction 1 as [| a Hr IH | a f Hr IH | a Hr IH].
  - split; [| reflexivity]. unfold history_symbols.
    apply Forall_forall. intros v Hv. apply list_elem_of_In in Hv.
    apply repeat_spec in Hv. subst v. simpl. tauto.
  - exact IH.
  - destruct IH as [Hh Hs]. split.
    + unfold frame, predict. destruct (_ || _); [exact Hh |].
      apply commit_step_history_symbols; [exact Hh | apply resolve_symbol].
    + pose proof (reachable_no_backspace suggest a Hr) as Hnb.
      destruct (frame_sentence suggest a f Hh Hnb) as [-> | (c & Hc & -> & _)];
        [exact Hs |].
      apply all_in_append; [exact Hs |]. cbn [all_in]. now rewrite Hc.
  - destruct IH as [Hh _]. split; [exact Hh | reflexivity].
Qed.

(** X9: gestures can only type the fifteen letters
    A B C D E F G H J L O P S X Y and the blank: in every state reached
    from the initial one by loading the model, processing frames and
    clearing the text, each character of the sentence is one of
    these. *)
Theorem sentence_alphabet (suggest : string -> list string) (a : App) :
  reachable suggest a -> all_in alphabet (str a) = true.
Proof. intros H. exact (proj2 (reachable_history_symbols suggest a H)). Qed.

(** X10: in such a state one frame leaves the sentence as it is or
    appends exactly one character to it, and it appends only when the
    frame resolves to "next". *)
Theorem frame_appends_at_most_one (suggest : string -> list string)
        (a : App) (f : list point * Z) :
  reachable suggest a ->
  str (frame suggest a f) = str a
  \/ (exists c, char_in c alphabet = true
             /\ str (frame suggest a f) = str a ++ String c EmptyString
             /\ resolve (snd f) (fst f) = Next).
Proof.
  intros H. apply frame_sentence.
  - exact (proj1 (reachable_history_symbols suggest a H)).
  - exact (reachable_no_backspace suggest a H).
Qed.

Lemma sentence_alphabet_witness :
  all_in alphabet (str typed_L) = true.
Proof.
  apply (sentence_alphabet echo typed_L).
  unfold typed_L. do 4 apply reach_frame. apply reach_load. apply reach_init.
Defined.

Lemma frame_appends_at_most_one_witness :
  str (frame echo typed_L (next_hand, 4)) = str typed_L
  \/ (exists c, char_in c alphabet = true
             /\ str (frame echo typed_L (next_hand, 4))
                = str typed_L ++ String c EmptyString
             /\ resolve 4 next_hand = Next).
Proof.
  apply (frame_appends_at_most_one echo typed_L (next_hand, 4)).
  unfold typed_L. do 4 apply reach_frame. apply reach_load. apply reach_init.
Defined.

(** ** The sentence and its active word *)

Lemma slice_to_from (k : nat) (s : string) :
  slice_to k s ++ slice_from k s = s.
Proof.
  revert s. induction k as [| k IH]; intros [| c s]; simpl; try reflexivity.
  now rewrite IH.
Qed.

Lemma slice_to_app_length (p w : string) :
  slice_to (String.length p) (p ++ w) = p.
Proof. induction p as [| c p IH]; simpl; [now destruct w | now rewrite IH]. Qed.

Lemma length_slice_to (k : nat) (s : string) :
  (k <= String.length s)%nat -> String.length (slice_to k s) = k.
Proof.
  revert s. induction k as [| k IH]; intros [| c s] H; simpl in *;
    try reflexivity; try lia.
  rewrite IH; lia.
Qed.

Lemma rfind_from_app (i acc : Z) (s t : string) :
  rfind_from " " i acc (s ++ t)
  = rfind_from " " (i + len s) (rfind_from " " i acc s) t.
Proof.
  revert i acc. induction s as [| d s IH]; intros i acc.
  - cbn. now rewrite Z.add_0_r.
  - cbn [append rfind_from]. rewrite IH. f_equal.
    unfold len. cbn [String.length]. lia.
Qed.

Lemma rfind_from_no_blank (i acc : Z) (t : string) :
  no_blank t = true -> rfind_from " " i acc t = acc.
Proof.
  revert i acc. induction t as [| d t IH]; intros i acc H; [reflexivity |].
  cbn in H. apply andb_true_iff in H as [Hd Ht].
  cbn [rfind_from]. apply negb_true_iff in Hd. rewrite Hd. now apply IH.
Qed.

(** Where the last blank is: either there is none, or the index is
    inside the string; nothing after it is a blank. *)
Lemma rfind_from_spec (s : string) (i acc : Z) :
  acc < i ->
  let r := rfind_from " " i acc s in
  (r = acc \/ i <= r < i + len s)
  /\ no_blank (slice_from (Z.to_nat (r + 1 - i)) s) = true.
Proof.
  revert i acc. induction s as [| d s IH]; intros i acc Hacc.
  - cbn. split; [now left |]. now destruct (Z.to_nat _).
  - cbn [rfind_from]. unfold len in *. cbn [String.length].
    set (acc' := if Ascii.eqb d " " then i else acc).
    assert (Hacc' : acc' < i + 1) by (subst acc'; destruct (Ascii.eqb d " "); lia).
    specialize (IH (i + 1) acc' Hacc'). cbv zeta in IH.
    set (r := rfind_from " " (i + 1) acc' s) in *.
    destruct IH as [Hr Hnb].
    destruct (Z.eq_dec r acc') as [E | E].
    + subst acc'. destruct (Ascii.eqb d " ") eqn:Ed.
      * split; [right; lia |].
        replace (Z.to_nat (r + 1 - i)) with 1%nat by lia. cbn.
        replace (Z.to_nat (r + 1 - (i + 1))) with 0%nat in Hnb by lia.
        exact Hnb.
      * split; [now left |].
        replace (Z.to_nat (r + 1 - i)) with 0%nat by lia.
        replace (Z.to_nat (r + 1 - (i + 1))) with 0%nat in Hnb by lia.
        cbn in *. now rewrite Ed, Hnb.
    + assert (Hin : i + 1 <= r < i + 1 + Z.of_nat (String.length s))
        by (destruct Hr; [contradiction | assumption]).
      split; [right; lia |].
      replace (Z.to_nat (r + 1 - i)) with (S (Z.to_nat (r + 1 - (i + 1))))
        by lia.
      exact Hnb.
Qed.

Lemma rfind_bounds (s : string) : -1 <= rfind s " " < len s.
Proof.
  pose proof (rfind_from_spec s 0 (-1) ltac:(lia)) as [H _].
  fold (rfind s " ") in H. unfold len in *. lia.
Qed.

Lemma active_word_no_blank (s : string) : no_blank (active_word s) = true.
Proof.
  pose proof (rfind_from_spec s 0 (-1) ltac:(lia)) as [_ H].
  fold (rfind s " ") in H. unfold active_word.
  now replace (rfind s " " + 1) with (rfind s " " + 1 - 0) by lia.
Qed.

Lemma prefix_active_word (s : string) :
  sentence_prefix s ++ active_word s = s.
Proof. apply slice_to_from. Qed.

Lemma length_sentence_prefix (s : string) :
  String.length (sentence_prefix s) = Z.to_nat (rfind s " " + 1).
Proof.
  apply length_slice_to. pose proof (rfind_bounds s). unfold len in *. lia.
Qed.

(** Replacing the active word by a word without blanks leaves the last
    blank where it was. *)
Lemma rfind_replace (s w : string) :
  no_blank w = true -> rfind (sentence_prefix s ++ w) " " = rfind s " ".
Proof.
  intros Hw.
  rewrite <- (prefix_active_word s) at 2.
  unfold rfind. rewrite !rfind_from_app.
  rewrite (rfind_from_no_blank _ _ w Hw).
  now rewrite (rfind_from_no_blank _ _ _ (active_word_no_blank s)).
Qed.

Lemma prefix_replace (s w : string) :
  no_blank w = true ->
  sentence_prefix (sentence_prefix s ++ w) = sentence_prefix s
  /\ active_word (sentence_prefix s ++ w) = w.
Proof.
  intros Hw.
  assert (Hp : sentence_prefix (sentence_prefix s ++ w) = sentence_prefix s).
  { unfold sentence_prefix at 1. rewrite (rfind_replace s w Hw).
    rewrite <- (length_sentence_prefix s). apply slice_to_app_length. }
  split; [exact Hp |].
  pose proof (prefix_active_word (sentence_prefix s ++ w)) as H.
  rewrite Hp in H.
  revert H. generalize (active_word (sentence_prefix s ++ w)).
  generalize (sentence_prefix s).
  intros p. induction p as [| c p IH]; intros v H; cbn in H; [exact H |].
  injection H as H. now apply IH.
Qed.

(** ** Applying a suggestion *)

Lemma truthy_strip (w : string) : truthy (strip w) = true <-> strip w <> "".
Proof.
  unfold truthy. rewrite negb_true_iff.
  destruct (String.eqb_spec (strip w) ""); split; congruence.
Qed.

Lemma list_getitem_button (a : App) (num : Z) :
  1 <= num <= 4 ->
  list_getitem (words a) (num - 1) = nth_error (words a) (Z.to_nat (num - 1)).
Proof.
  intros H. unfold list_getitem, words. cbn [length].
  destruct (Z.leb_spec 0 (num - 1)); [| lia].
  destruct (Z.ltb_spec (num - 1) (Z.of_nat 4)); [reflexivity | lia].
Qed.

Lemma apply_suggestion_button (upper : string -> string)
      (a : App) (num : Z) (w : string) :
  1 <= num <= 4 ->
  nth_error (words a) (Z.to_nat (num - 1)) = Some w ->
  apply_suggestion upper a num
  = if truthy (strip w)
    then Done (set_str (sentence_prefix (str a) ++ upper w) a)
    else Done a.
Proof.
  intros Hnum Hw. unfold apply_suggestion. fold (words a).
  cbn [length words].
  destruct (Z.leb_spec num (Z.of_nat 4)); [| lia].
  rewrite (list_getitem_button a num Hnum), Hw. reflexivity.
Qed.

(** X11: a suggestion button with a non-blank candidate replaces the
    active word, it does not append to it: the sentence is its prefix up
    to the last blank followed by the active word, and afterwards it is
    the same prefix followed by the upper-cased candidate, every other
    field being unchanged; when the upper-cased candidate has no blank
    it is the new active word. *)
Theorem apply_suggestion_replaces_active_word
        (upper : string -> string) (a : App) (num : Z) (w : string) :
  1 <= num <= 4 ->
  nth_error (words a) (Z.to_nat (num - 1)) = Some w ->
  strip w <> "" ->
  str a = sentence_prefix (str a) ++ active_word (str a)
  /\ apply_suggestion upper a num
     = Done (set_str (sentence_prefix (str a) ++ upper w) a)
  /\ (no_blank (upper w) = true ->
      active_word (sentence_prefix (str a) ++ upper w) = upper w).
Proof.
  intros Hnum Hw Hs. split; [symmetry; apply prefix_active_word |]. split.
  - rewrite (apply_suggestion_button upper a num w Hnum Hw).
    apply truthy_strip in Hs. now rewrite Hs.
  - intros Hb. now apply prefix_replace.
Qed.

Lemma apply_suggestion_replaces_active_word_witness :
  str spelling_HEL
  = sentence_prefix (str spelling_HEL) ++ active_word (str spelling_HEL)
  /\ apply_suggestion ascii_upper spelling_HEL 2
     = Done (set_str (sentence_prefix (str spelling_HEL) ++ ascii_upper "help")
                     spelling_HEL)
  /\ (no_blank (ascii_upper "help") = true ->
      active_word (sentence_prefix (str spelling_HEL) ++ ascii_upper "help")
      = ascii_upper "help").
Proof.
  apply (apply_suggestion_replaces_active_word ascii_upper spelling_HEL 2 "help");
    [lia | reflexivity | discriminate].
Defined.

(** X12: pressing the same suggestion button twice gives what pressing
    it once gives, provided upper-casing a non-blank candidate yields no
    blank. *)
Theorem apply_suggestion_idempotent
        (upper : string -> string) (a b : App) (num : Z) (w : string) :
  1 <= num <= 4 ->
  nth_error (words a) (Z.to_nat (num - 1)) = Some w ->
  (strip w <> "" -> no_blank (upper w) = true) ->
  apply_suggestion upper a num = Done b ->
  apply_suggestion upper b num = Done b.
Proof.
  intros Hnum Hw Hnb Hb.
  rewrite (apply_suggestion_button upper a num w Hnum Hw) in Hb.
  destruct (truthy (strip w)) eqn:Ht; injection Hb as <-.
  - assert (Hw' : nth_error (words (set_str (sentence_prefix (str a) ++ upper w) a))
                            (Z.to_nat (num - 1)) = Some w) by exact Hw.
    rewrite (apply_suggestion_button upper _ num w Hnum Hw'), Ht.
    cbn [str set_str].
    apply truthy_strip in Ht. specialize (Hnb Ht).
    destruct (prefix_replace (str a) (upper w) Hnb) as [-> _].
    destruct a; reflexivity.
  - now rewrite (apply_suggestion_button upper a num w Hnum Hw), Ht.
Qed.

Lemma apply_suggestion_idempotent_witness :
  apply_suggestion ascii_upper
    (set_str (sentence_prefix (str spelling_HEL) ++ ascii_upper "hello")
             spelling_HEL) 1
  = Done (set_str (sentence_prefix (str spelling_HEL) ++ ascii_upper "hello")
                  spelling_HEL).
Proof.
  apply (apply_suggestion_idempotent ascii_upper spelling_HEL _ 1 "hello").
  - lia.
  - reflexivity.
  - intros _. reflexivity.
  - reflexivity.
Defined.

(** X13: the edges of [apply_suggestion]: a number above four or a
    blank candidate leaves the state as it is; a number from -3 to 0 is
    a negative list index and acts as that number plus four; a number
    below -3 raises [IndexError] with the state unchanged. *)
Theorem apply_suggestion_edges (upper : string -> string) (a : App) :
  (forall num : Z, 4 < num -> apply_suggestion upper a num = Done a)
  /\ (forall (num : Z) (w : string),
        1 <= num <= 4 ->
        nth_error (words a) (Z.to_nat (num - 1)) = Some w ->
        strip w = "" -> apply_suggestion upper a num = Done a)
  /\ (forall num : Z,
        -3 <= num <= 0 ->
        apply_suggestion upper a num = apply_suggestion upper a (num + 4))
  /\ (forall num : Z,
        num < -3 -> apply_suggestion upper a num = Raised IndexError a).
Proof.
  repeat split.
  - intros num H. unfold apply_suggestion. cbn [length].
    destruct (Z.leb_spec num (Z.of_nat 4)); [lia | reflexivity].
  - intros num w Hnum Hw Hs.
    rewrite (apply_suggestion_button upper a num w Hnum Hw).
    unfold truthy. now rewrite Hs.
  - intros num H. unfold apply_suggestion. cbn [length].
    destruct (Z.leb_spec num (Z.of_nat 4)); [| lia].
    destruct (Z.leb_spec (num + 4) (Z.of_nat 4)); [| lia].
    unfold list_getitem. cbn [length].
    destruct (Z.leb_spec 0 (num - 1)); [lia |].
    destruct (Z.leb_spec 0 (num + 4 - 1)); [| lia].
    destruct (Z.ltb_spec (num + 4 - 1) (Z.of_nat 4)); [| lia].
    destruct (Z.leb_spec (- Z.of_nat 4) (num - 1)); [| lia].
    destruct (Z.ltb_spec (num - 1) 0); [| lia].
    cbn [andb].
    now replace (Z.to_nat (num - 1 + Z.of_nat 4)) with (Z.to_nat (num + 4 - 1))
      by lia.
  - intros num H. unfold apply_suggestion. cbn [length].
    destruct (Z.leb_spec num (Z.of_nat 4)); [| lia].
    unfold list_getitem. cbn [length].
    destruct (Z.leb_spec 0 (num - 1)); [lia |].
    destruct (Z.leb_spec (- Z.of_nat 4) (num - 1)); [lia |].
    reflexivity.
Qed.

Lemma apply_suggestion_edges_witness :
  apply_suggestion ascii_upper spelling_HEL 4 = Done spelling_HEL
  /\ apply_suggestion ascii_upper spelling_HEL (-2)
     = apply_suggestion ascii_upper spelling_HEL 2.
Proof.
  destruct (apply_suggestion_edges ascii_upper spelling_HEL)
    as (_ & H2 & H3 & _).
  split.
  - apply (H2 4 " "); [lia | reflexivity | reflexivity].
  - apply (H3 (-2)). lia.
Defined.

(** ** Suggestions that stay *)

Lemma active_word_after_blank (p : string) : active_word (p ++ " ") = "".
Proof.
  assert (Hr : rfind (p ++ " ") " " = len p).
  { unfold rfind. rewrite rfind_from_app. reflexivity. }
  unfold active_word. rewrite Hr. unfold len.
  replace (Z.to_nat (Z.of_nat (String.length p) + 1))
    with (S (String.length p)) by lia.
  clear Hr. induction p as [| c p IH]; [reflexivity | exact IH].
Qed.

(** X14: when the sentence ends with a blank after a call of the commit
    block, the four suggestions are those from before the call: the
    refresh does not clear them and does not ask the dictionary, so the
    candidates of the finished word stay on the buttons. *)
Theorem blank_keeps_suggestions (suggest : string -> list string)
        (a b : App) (ch1 : pyval) (p : string) :
  commit_step suggest a ch1 = Done b ->
  str b = p ++ " " ->
  words b = words a.
Proof.
  unfold commit_step. intros Hb Hs.
  destruct (handle_char a ch1) as [e | c]; [discriminate |].
  cbv zeta in Hb. destruct (setitem _ _ _) as [l |]; [| discriminate].
  injection Hb as <-.
  match goal with
  | H : str (update_suggestions suggest ?s) = _ |- _ =>
      destruct (update_suggestions_frame suggest s) as (Hstr & _);
      rewrite Hstr in H; set (s0 := s) in *
  end.
  assert (Hw : strip (slice_from (Z.to_nat (rfind (str s0) " " + 1)) (str s0))
               = "").
  { fold (active_word (str s0)). rewrite Hs, active_word_after_blank.
    reflexivity. }
  unfold update_suggestions.
  destruct (negb (len (strip (str s0)) =? 0)); [| reflexivity].
  cbv zeta. rewrite Hw. reflexivity.
Qed.

Lemma blank_keeps_suggestions_witness :
  words (final (commit_step echo word_done (Letter "A"))) = words word_done.
Proof.
  apply (blank_keeps_suggestions echo word_done _ (Letter "A") " SAY");
    reflexivity.
Defined.

(** ** After clearing *)

(** X15: a cleared text is quiet: clearing again changes nothing,
    nothing is handed to the speech engine, every suggestion button
    leaves the state as it is, and the suggestion refresh leaves it as
    it is and does not ask the dictionary. *)
Theorem after_clear_is_quiet (a : App) :
  clear_text (clear_text a) = clear_text a
  /\ speak_text (clear_text a) = None
  /\ (forall (upper : string -> string) (num : Z),
        1 <= num ->
        apply_suggestion upper (clear_text a) num = Done (clear_text a))
  /\ (forall suggest : string -> list string,
        update_suggestions suggest (clear_text a) = clear_text a).
Proof.
  repeat split.
  - intros upper num Hnum. unfold apply_suggestion. cbn [length].
    destruct (Z.leb_spec num (Z.of_nat 4)); [| reflexivity].
    assert (Hc : num = 1 \/ num = 2 \/ num = 3 \/ num = 4) by lia.
    destruct Hc as [-> | [-> | [-> | ->]]]; reflexivity.
Qed.

Lemma after_clear_is_quiet_witness :
  apply_suggestion ascii_upper (clear_text spelling_HEL) 2
  = Done (clear_text spelling_HEL).
Proof.
  apply (proj1 (proj2 (proj2 (after_clear_is_quiet spelling_HEL)))). lia.
Defined.

(** ** The fingerspelling animation *)

Lemma alpha_is_alnum (c : ascii) : is_alpha c = true -> is_alnum c = true.
Proof. intros H. unfold is_alnum. now rewrite H. Qed.

Lemma space_not_alpha (c : ascii) : is_space c = true -> is_alpha c = false.
Proof.
  destruct c as [[] [] [] [] [] [] [] []]; vm_compute; congruence.
Qed.

Lemma filter_alpha_alnum (w : string) :
  filter_chars is_alpha (filter_chars is_alnum w) = filter_chars is_alpha w.
Proof.
  induction w as [| c w IH]; [reflexivity |]. cbn [filter_chars].
  destruct (is_alnum c) eqn:En.
  - cbn [filter_chars]. now rewrite IH.
  - destruct (is_alpha c) eqn:Ea; [| exact IH].
    apply alpha_is_alnum in Ea. congruence.
Qed.

Lemma filter_chars_app (f : ascii -> bool) (s t : string) :
  filter_chars f (s ++ t) = filter_chars f s ++ filter_chars f t.
Proof.
  induction s as [| c s IH]; [reflexivity |]. cbn [append filter_chars].
  destruct (f c); cbn [append]; now rewrite IH.
Qed.

Lemma list_ascii_app (s t : string) :
  list_ascii_of_string (s ++ t)
  = (list_ascii_of_string s ++ list_ascii_of_string t)%list.
Proof. induction s as [| c s IH]; [reflexivity |]. cbn. now rewrite IH. Qed.

(** Splitting at white space loses no letter and keeps the order. *)
Lemma split_from_letters (s tok : string) :
  flat_map (fun w => list_ascii_of_string (filter_chars is_alpha w))
           (split_from tok s)
  = (list_ascii_of_string (filter_chars is_alpha tok)
     ++ list_ascii_of_string (filter_chars is_alpha s))%list.
Proof.
  revert tok. induction s as [| c s IH]; intros tok.
  - cbn [split_from filter_chars list_ascii_of_string].
    unfold truthy. destruct (String.eqb_spec tok "") as [-> | _];
      cbn; now rewrite ?app_nil_r.
  - cbn [split_from]. destruct (is_space c) eqn:Es.
    + cbn [filter_chars]. rewrite (space_not_alpha c Es).
      unfold truthy. destruct (String.eqb_spec tok "") as [-> | _].
      * cbn [negb]. rewrite IH. reflexivity.
      * cbn [negb flat_map]. rewrite IH. reflexivity.
    + rewrite IH, filter_chars_app, list_ascii_app.
      rewrite <- app_assoc. f_equal.
      cbn [filter_chars]. destruct (is_alpha c); reflexivity.
Qed.

(** X16: the signs that [display_asl] queues for a text are exactly its
    alphabetic characters, in their order: white space, digits and
    punctuation are dropped and nothing else is. *)
Theorem signs_are_the_letters (text : string) :
  letters_of text = list_ascii_of_string (filter_chars is_alpha text).
Proof.
  unfold letters_of, split.
  rewrite (flat_map_ext _
             (fun w => list_ascii_of_string (filter_chars is_alpha w))).
  - now rewrite split_from_letters.
  - intros w. cbv zeta. now rewrite filter_alpha_alnum.
Qed.

Lemma nth_error_is_lookup {A : Type} (l : list A) (i : nat) :
  nth_error l i = l !! i.
Proof.
  revert i. induction l as [| x l IH]; intros [| i]; try reflexivity.
  apply IH.
Qed.

Lemma animate_next_show (p : Player) (c : ascii) :
  is_playing p = true ->
  0 <= animation_index p ->
  current_images p !! Z.to_nat (animation_index p) = Some c ->
  animate_next p
  = inr ({| current_images := current_images p;
            animation_index := animation_index p + 1;
            is_playing := true;
            progress_maximum := progress_maximum p;
            progress_value := animation_index p + 1 |}, Some c).
Proof.
  intros Hp Hi Hc. unfold animate_next. rewrite Hp. cbn [negb orb].
  pose proof (lookup_lt_Some _ _ _ Hc) as Hlt.
  destruct (Z.leb_spec (Z.of_nat (length (current_images p)))
                       (animation_index p)); [lia |].
  unfold list_getitem.
  destruct (Z.leb_spec 0 (animation_index p)); [| lia].
  destruct (Z.ltb_spec (animation_index p)
                       (Z.of_nat (length (current_images p)))); [| lia].
  cbn [andb]. rewrite nth_error_is_lookup, Hc. reflexivity.
Qed.

(** A running animation shows the rest of its signs and stops. *)
Lemma ticks_play_rest (k : nat) (p : Player) :
  is_playing p = true ->
  0 <= animation_index p <= Z.of_nat (length (current_images p)) ->
  Z.of_nat (length (current_images p)) - animation_index p < Z.of_nat k ->
  let (q, shown) := ticks k p in
  shown = drop (Z.to_nat (animation_index p)) (current_images p)
  /\ current_images q = current_images p
  /\ animation_index q = Z.of_nat (length (current_images p))
  /\ is_playing q = false
  /\ progress_maximum q = progress_maximum p
  /\ progress_value q
     = if animation_index p <? Z.of_nat (length (current_images p))
       then Z.of_nat (length (current_images p)) else progress_value p.
Proof.
  revert p. induction k as [| k IH]; intros p Hp Hi Hk; [lia |].
  cbn [ticks].
  destruct (current_images p !! Z.to_nat (animation_index p)) as [c |] eqn:Hc.
  - pose proof (lookup_lt_Some _ _ _ Hc) as Hlt.
    rewrite (animate_next_show p c Hp ltac:(lia) Hc).
    set (p' := {| current_images := current_images p;
                  animation_index := animation_index p + 1;
                  is_playing := true;
                  progress_maximum := progress_maximum p;
                  progress_value := animation_index p + 1 |}).
    specialize (IH p' eq_refl).
    cbn [current_images animation_index p' progress_maximum progress_value] in IH.
    specialize (IH ltac:(lia) ltac:(lia)).
    destruct (ticks k p') as [q shown].
    destruct IH as (Hs & Hi' & Hx & Hpl & Hm & Hv).
    repeat split; try assumption.
    + rewrite Hs.
      replace (Z.to_nat (animation_index p + 1))
        with (S (Z.to_nat (animation_index p))) by lia.
      symmetry. now apply drop_S.
    + rewrite Hv.
      destruct (Z.ltb_spec (animation_index p)
                  (Z.of_nat (length (current_images p)))); [| lia].
      destruct (Z.ltb_spec (animation_index p + 1)
                  (Z.of_nat (length (current_images p)))); lia.
  - apply lookup_ge_None in Hc.
    assert (He : animation_index p = Z.of_nat (length (current_images p)))
      by lia.
    unfold animate_next. rewrite Hp. cbn [negb orb].
    destruct (Z.leb_spec (Z.of_nat (length (current_images p)))
                         (animation_index p)); [| lia].
    split; [rewrite drop_ge by lia; reflexivity |].
    split; [reflexivity |]. split; [exact He |].
    split; [reflexivity |]. split; [reflexivity |].
    cbn [progress_value].
    destruct (Z.ltb_spec (animation_index p)
                (Z.of_nat (length (current_images p)))); [lia | reflexivity].
Qed.

(** X17: a text with at least one letter is fingerspelled completely:
    [display_asl] shows the first sign at once, the timer calls that
    follow show the remaining signs in order, and after them the
    animation has stopped with the index at the number of signs and the
    progress bar full; further timer calls show nothing. *)
Theorem display_asl_plays_every_sign
        (p : Player) (text : string) (c : ascii) (cs : list ascii) (k : nat) :
  letters_of text = c :: cs ->
  (length cs < k)%nat ->
  exists p1,
    display_asl p text = inr (p1, Some c)
    /\ snd (ticks k p1) = cs
    /\ is_playing (fst (ticks k p1)) = false
    /\ animation_index (fst (ticks k p1)) = Z.of_nat (S (length cs))
    /\ progress_value (fst (ticks k p1)) = progress_maximum (fst (ticks k p1)).
Proof.
  intros Hl Hk. unfold display_asl. rewrite Hl.
  set (p0 := {| current_images := c :: cs; animation_index := 0;
                is_playing := true;
                progress_maximum := Z.of_nat (length (c :: cs));
                progress_value := 0 |}).
  rewrite (animate_next_show p0 c eq_refl ltac:(cbn; lia) eq_refl).
  eexists. split; [reflexivity |].
  match goal with |- context [ticks k ?q] => set (p1 := q) end.
  pose proof (ticks_play_rest k p1 eq_refl) as H.
  cbn [current_images animation_index progress_maximum progress_value p1 p0]
    in H.
  specialize (H ltac:(cbn [length]; lia) ltac:(cbn [length]; lia)).
  destruct (ticks k p1) as [q shown]. cbn [fst snd].
  destruct H as (Hs & _ & Hi & Hpl & Hm & Hv).
  repeat split.
  - rewrite Hs. reflexivity.
  - exact Hpl.
  - exact Hi.
  - rewrite Hv, Hm.
    destruct (Z.ltb_spec (0 + 1) (Z.of_nat (length (c :: cs))));
      cbn [length] in *; [reflexivity | lia].
Qed.

Lemma display_asl_plays_every_sign_witness :
  exists p1,
    display_asl idle "a cat!" = inr (p1, Some "a"%char)
    /\ snd (ticks 4 p1) = ["c"; "a"; "t"]%char
    /\ is_playing (fst (ticks 4 p1)) = false
    /\ animation_index (fst (ticks 4 p1)) = Z.of_nat 4
    /\ progress_value (fst (ticks 4 p1)) = progress_maximum (fst (ticks 4 p1)).
Proof.
  apply (display_asl_plays_every_sign idle "a cat!" "a"%char
           ["c"; "a"; "t"]%char 4); [reflexivity | cbn; lia].
Defined.

(** X18: two ways an animation ends early.  After [stop_animation] no
    timer call shows a sign and the index stays where it was.  A text
    without any letter empties the queue and leaves the index and the
    playing flag alone, so that the next timer call of a running
    animation shows nothing and stops it. *)
Theorem animation_ends_early (p : Player) (k : nat) :
  ticks (S k) (stop_animation p) = (stop_animation p, [])
  /\ (forall text : string,
        filter_chars is_alpha text = "" ->
        exists q,
          display_asl p text = inr (q, None)
          /\ current_images q = []
          /\ animation_index q = animation_index p
          /\ is_playing q = is_playing p
          /\ (0 <= animation_index p ->
              ticks (S k) q = (stop_animation q, []))).
Proof.
  split.
  - cbn [ticks]. unfold animate_next. reflexivity.
  - intros text Ht.
    assert (Hl : letters_of text = []).
    { unfold letters_of, split.
      rewrite (flat_map_ext _
                 (fun w => list_ascii_of_string (filter_chars is_alpha w)))
        by (intros w; cbv zeta; now rewrite filter_alpha_alnum).
      now rewrite split_from_letters, Ht. }
    unfold display_asl. rewrite Hl. eexists. split; [reflexivity |].
    repeat split. intros Hi. cbn [ticks]. unfold animate_next.
    cbn [current_images animation_index length is_playing].
    destruct (Z.leb_spec (Z.of_nat 0) (animation_index p)); [| lia].
    rewrite orb_true_r. reflexivity.
Qed.

Lemma animation_ends_early_witness :
  exists q,
    display_asl playing_cat "42 !" = inr (q, None)
    /\ current_images q = []
    /\ animation_index q = animation_index playing_cat
    /\ is_playing q = is_playing playing_cat
    /\ (0 <= animation_index playing_cat ->
        ticks 1 q = (stop_animation q, [])).
Proof.
  apply (proj2 (animation_ends_early playing_cat 0) "42 !"). reflexivity.
Defined.

(** ** Dropped frames *)

Lemma handle_char_view (a a' : App) (ch1 : pyval) :
  debounce_view a = debounce_view a' -> handle_char a ch1 = handle_char a' ch1.
Proof.
  unfold debounce_view. intros H. injection H as _ _ Hp Hc Ht.
  unfold handle_char, lookback_slot. now rewrite Hp, Hc, Ht.
Qed.

Lemma commit_step_view (suggest : string -> list string)
      (a a' : App) (ch1 : pyval) :
  debounce_view a = debounce_view a' ->
  debounce_view (final (commit_step suggest a ch1))
  = debounce_view (final (commit_step suggest a' ch1)).
Proof.
  intros H. unfold commit_step.
  rewrite (handle_char_view a a' ch1 H).
  unfold debounce_view in H. injection H as Hm Hs Hp Hc Ht.
  destruct (handle_char a' ch1) as [e | c].
  - cbn [final]. unfold debounce_view. now rewrite Hm, Hs, Hp, Hc, Ht.
  - cbv zeta. cbn [ten_prev_char count record_symbol set_str].
    rewrite Hc, Ht.
    destruct (setitem _ _ _) as [l |]; cbn [final].
    + unfold debounce_view.
      repeat match goal with
      | |- context [update_suggestions suggest ?s] =>
          destruct (update_suggestions_frame suggest s)
            as (-> & -> & -> & -> & ->)
      end.
      cbn. now rewrite Hm, Hs, Hc.
    + unfold debounce_view. cbn. now rewrite Hm, Hs, Hc, Ht.
Qed.

Lemma frame_view (suggest : string -> list string)
      (a a' : App) (f : list point * Z) :
  debounce_view a = debounce_view a' ->
  debounce_view (frame suggest a f) = debounce_view (frame suggest a' f).
Proof.
  intros H. unfold frame, predict.
  assert (H' : debounce_view (store_landmarks (fst f) a)
               = debounce_view (store_landmarks (fst f) a')) by exact H.
  cbn [model pts store_landmarks].
  replace (model a) with (model a') by (unfold debounce_view in H; congruence).
  destruct (_ || _); cbn [final]; [exact H' |].
  now apply commit_step_view.
Qed.

Lemma frame_incomplete (suggest : string -> list string)
      (a : App) (f : list point * Z) :
  complete f = false -> frame suggest a f = store_landmarks (fst f) a.
Proof.
  unfold complete, frame, predict. intros H. apply negb_false_iff in H.
  cbn [pts store_landmarks]. rewrite H, orb_true_r. reflexivity.
Qed.

(** X19: frames with fewer than 21 landmarks are invisible to the
    commit logic: a run of frames and the same run with the incomplete
    frames removed end with the same sentence, previous symbol, counter
    and history, so an incomplete frame neither commits nor counts
    towards the frames a symbol has been held. *)
Theorem incomplete_frames_are_skipped (suggest : string -> list string)
        (fs : list (list point * Z)) (a : App) :
  debounce_view (run suggest a fs)
  = debounce_view (run suggest a (List.filter complete fs)).
Proof.
  assert (G : forall (fs : list (list point * Z)) (a a' : App),
             debounce_view a = debounce_view a' ->
             debounce_view (run suggest a fs)
             = debounce_view (run suggest a' (List.filter complete fs))).
  { clear fs a. induction fs as [| f fs IH]; intros a a' H; [exact H |].
    cbn [List.filter]. unfold run. cbn [fold_left].
    fold (run suggest (frame suggest a f) fs).
    destruct (complete f) eqn:Ef.
    - cbn [fold_left].
      fold (run suggest (frame suggest a' f) (List.filter complete fs)).
      apply IH. now apply frame_view.
    - fold (run suggest a' (List.filter complete fs)).
      apply IH. rewrite (frame_incomplete suggest a f Ef). exact H. }
  now apply G.
Qed.

(** ** The image cache *)

Lemma cache_get_app (image : Type) (key : string)
      (c1 c2 : list (string * image)) :
  cache_get image key (c1 ++ c2)%list
  = match cache_get image key c1 with
    | Some img => Some img
    | None => cache_get image key c2
    end.
Proof.
  induction c1 as [| [k img] c1 IH]; [reflexivity |].
  cbn [app cache_get]. destruct (String.eqb key k); [reflexivity | exact IH].
Qed.

(** X20: an image is drawn once per letter and size: a second request
    for the same letter, in either case, and the same size returns the
    image of the first request and leaves the cache as it is; and a
    request never changes the image stored under any key. *)
Theorem image_cache_round_trip
        (image : Type) (draw : string -> Z -> Z -> image)
        (cache : list (string * image)) (letter : string) (size : Z * Z) :
  let r := create_asl_image image draw cache letter size in
  (forall letter' : string,
      lower letter' = lower letter ->
      create_asl_image image draw (fst r) letter' size = r)
  /\ (forall (key : string) (img : image),
        cache_get image key cache = Some img ->
        cache_get image key (fst r) = Some img)
  /\ (cache_get image
        (lower letter ++ "_" ++ decimal (fst size) ++ "x" ++ decimal (snd size))
        cache = None ->
      snd r = draw (lower letter) (fst size) (snd size)).
Proof.
  cbv zeta. unfold create_asl_image.
  set (key := lower letter ++ "_" ++ decimal (fst size) ++ "x"
              ++ decimal (snd size)).
  destruct (cache_get image key cache) as [img |] eqn:E; cbn [fst snd].
  - split; [| split].
    + intros letter' ->. fold key. now rewrite E.
    + tauto.
    + discriminate.
  - split; [| split].
    + intros letter' ->. fold key.
      rewrite cache_get_app, E. cbn [cache_get].
      now rewrite String.eqb_refl.
    + intros k img Hk. rewrite cache_get_app, Hk. reflexivity.
    + reflexivity.
Qed.

Lemma image_cache_round_trip_witness :
  create_asl_image string (fun l _ _ => l)
    (fst (create_asl_image string (fun l _ _ => l) [] "A" (300, 300)))
    "a" (300, 300)
  = create_asl_image string (fun l _ _ => l) [] "A" (300, 300).
Proof.
  apply (proj1 (image_cache_round_trip string (fun l _ _ => l) []
                  "A" (300, 300))).
  reflexivity.
Defined.
